(** * The build cache of the API console builder

    A shallow embedding of the [CacheBuild] class (the cache key, the cache
    folder, the existence check, restoring a cached build from its zip file
    and packing a build into one) and of the [Bundler] class, with the
    properties the specification states about the cache and further
    properties read off the code.

    JavaScript strings are modelled by the bytes of their UTF-8 encoding
    ([string]), which is what [hash.update] digests. *)

From Stdlib Require Import NArith ZArith List Ascii String DecimalString Lia.
From stdpp Require Import gmap strings list.

(** ** JavaScript values, errors and completions *)

Module Js.

(** The option values the builder is configured with. Numbers, functions and
    symbols are not part of the options' declared types and are left out;
    [JsBigInt] is kept as the first-order value [JSON.stringify] throws on.
    [JsObject] lists the own enumerable properties in enumeration order. *)
#[warnings="-register-all"]
Inductive JsValue : Type :=
| JsUndefined
| JsNull
| JsBool (b : bool)
| JsBigInt (n : Z)
| JsString (s : string)
| JsArray (items : list JsValue)
| JsObject (props : list (string * JsValue)).

Record JsError : Type := MkError {
  errName : string;
  errCode : option string;
  errMessage : string
}.

(** The outcome of evaluating an expression that may throw. *)
Inductive Completion (A : Type) : Type :=
| Normal (a : A)
| Throw (e : JsError).
Arguments Normal {A} a.
Arguments Throw {A} e.

#[global] Instance completion_ret : MRet Completion := fun A a => Normal a.

#[global] Instance completion_bind : MBind Completion := fun A B k c =>
  match c with
  | Normal a => k a
  | Throw e => Throw e
  end.

Definition TypeError (code : option string) (msg : string) : JsError :=
  MkError "TypeError" code msg.

(** [ToBoolean]: the test of an [if (value)]. *)
Definition ToBoolean (v : JsValue) : bool :=
  match v with
  | JsUndefined | JsNull => false
  | JsBool b => b
  | JsBigInt n => negb (Z.eqb n 0)
  | JsString s => negb (String.eqb s "")
  | JsArray _ | JsObject _ => true
  end.

(** [typeof v === 'undefined'] *)
Definition isUndefined (v : JsValue) : bool :=
  match v with
  | JsUndefined => true
  | _ => false
  end.

(** [Array.prototype.join]. *)
Fixpoint join (sep : string) (parts : list string) : string :=
  match parts with
  | [] => ""
  | [p] => p
  | p :: rest => p +:+ sep +:+ join sep rest
  end.

Definition decimal (n : Z) : string := NilZero.string_of_int (Z.to_int n).

(** [ToString], as a template literal applies it to a substitution. *)
Fixpoint ToString (v : JsValue) : string :=
  match v with
  | JsUndefined => "undefined"
  | JsNull => "null"
  | JsBool b => if b then "true" else "false"
  | JsBigInt n => decimal n
  | JsString s => s
  | JsArray items =>
      join "," (List.map (fun x => match x with
                                   | JsUndefined | JsNull => ""
                                   | _ => ToString x
                                   end) items)
  | JsObject _ => "[object Object]"
  end.

Definition hex_digit (n : N) : ascii :=
  if (n <? 10)%N then ascii_of_N (48 + n) else ascii_of_N (87 + n).

Definition dquote : ascii := ascii_of_N 34.
Definition backslash : ascii := ascii_of_N 92.

(** One character of [QuoteJSONString]. *)
Definition quote_char (c : ascii) : string :=
  let n := N_of_ascii c in
  if (n =? 34)%N then String backslash (String dquote "") else
  if (n =? 92)%N then String backslash (String backslash "") else
  if (n =? 8)%N then "\b" else
  if (n =? 12)%N then "\f" else
  if (n =? 10)%N then "\n" else
  if (n =? 13)%N then "\r" else
  if (n =? 9)%N then "\t" else
  if (n <? 32)%N then
    "\u00" +:+ String (hex_digit (n / 16)) (String (hex_digit (n mod 16)) "")
  else String c "".

Fixpoint quote_body (s : string) : string :=
  match s with
  | EmptyString => ""
  | String c rest => quote_char c +:+ quote_body rest
  end.

Definition QuoteJSONString (s : string) : string :=
  String dquote (quote_body s) +:+ String dquote "".

(** [SerializeJSONProperty] without replacer, indentation or [toJSON]:
    [None] is the [undefined] result. *)
Fixpoint SerializeJSONProperty (v : JsValue) : Completion (option string) :=
  match v with
  | JsUndefined => Normal None
  | JsNull => Normal (Some "null")
  | JsBool b => Normal (Some (if b then "true" else "false"))
  | JsBigInt _ => Throw (TypeError None "Do not know how to serialize a BigInt")
  | JsString s => Normal (Some (QuoteJSONString s))
  | JsArray items =>
      parts ← (fix elements (l : list JsValue) : Completion (list string) :=
                  match l with
                  | [] => Normal []
                  | x :: rest =>
                      o ← SerializeJSONProperty x;
                      more ← elements rest;
                      Normal (default "null" o :: more)
                  end) items;
      Normal (Some ("[" +:+ join "," parts +:+ "]"))
  | JsObject props =>
      parts ← (fix members (l : list (string * JsValue)) : Completion (list string) :=
                  match l with
                  | [] => Normal []
                  | (k, x) :: rest =>
                      o ← SerializeJSONProperty x;
                      more ← members rest;
                      Normal (match o with
                              | Some text => (QuoteJSONString k +:+ ":" +:+ text) :: more
                              | None => more
                              end)
                  end) props;
      Normal (Some ("{" +:+ join "," parts +:+ "}"))
  end.

Definition JSON_stringify (v : JsValue) : Completion (option string) :=
  SerializeJSONProperty v.

(** A JavaScript object read as a record of optional fields: a missing
    property reads as [undefined]. *)
Definition get (o : gmap string JsValue) (k : string) : JsValue :=
  default JsUndefined (o !! k).

End Js.
Export Js.

(** ** SHA-256, the digest of [crypto.createHash('sha256')] *)

Module Sha256.
Local Open Scope N_scope.

Definition w32 (x : N) : N := N.land x 0xffffffff.
Definition add32 (a b : N) : N := w32 (a + b).
Definition rotr (n x : N) : N := w32 (N.lor (N.shiftr x n) (N.shiftl x (32 - n))).
Definition shr (n x : N) : N := N.shiftr x n.
Definition ch (x y z : N) : N :=
  N.lxor (N.land x y) (N.land (N.lxor x 0xffffffff) z).
Definition maj (x y z : N) : N :=
  N.lxor (N.lxor (N.land x y) (N.land x z)) (N.land y z).
Definition bsig0 (x : N) : N := N.lxor (N.lxor (rotr 2 x) (rotr 13 x)) (rotr 22 x).
Definition bsig1 (x : N) : N := N.lxor (N.lxor (rotr 6 x) (rotr 11 x)) (rotr 25 x).
Definition ssig0 (x : N) : N := N.lxor (N.lxor (rotr 7 x) (rotr 18 x)) (shr 3 x).
Definition ssig1 (x : N) : N := N.lxor (N.lxor (rotr 17 x) (rotr 19 x)) (shr 10 x).

Definition isPrime (n : nat) : bool :=
  forallb (fun d => negb (Nat.eqb (Nat.modulo n d) 0)) (seq 2 (n - 2)).

Definition primes (count : nat) : list N :=
  List.map N.of_nat (firstn count (List.filter isPrime (seq 2 320))).

(** The greatest [r] below [2 ^ bits] with [r ^ 3 <= x], bit by bit. *)
Fixpoint cubeRoot (bits : nat) (x r : N) : N :=
  match bits with
  | O => r
  | S b =>
      let r' := N.lor r (N.shiftl 1 (N.of_nat b)) in
      cubeRoot b x (if r' * r' * r' <=? x then r' else r)
  end.

(** The round constants: the first 32 bits of the fractional parts of the
    cube roots of the first 64 primes. *)
Definition K : list N :=
  List.map (fun p => w32 (cubeRoot 40 (N.shiftl p 96) 0)) (primes 64).

(** The initial hash value: the same of the square roots of the first 8
    primes. *)
Definition H0 : list N :=
  List.map (fun p => w32 (N.sqrt (N.shiftl p 64))) (primes 8).

(** The [count] low bytes of [x], most significant first. *)
Definition be_bytes (count : nat) (x : N) : list N :=
  List.map (fun i => N.land (N.shiftr x (8 * N.of_nat i)) 0xff) (rev (seq 0 count)).

Definition pad (msg : list N) : list N :=
  let len := N.of_nat (List.length msg) in
  let zeros := N.to_nat ((119 - len mod 64) mod 64) in
  msg ++ [0x80] ++ repeat 0 zeros ++ be_bytes 8 (8 * len).

Fixpoint words (fuel : nat) (bs : list N) : list N :=
  match fuel, bs with
  | S f, b0 :: b1 :: b2 :: b3 :: rest =>
      (N.shiftl b0 24 + N.shiftl b1 16 + N.shiftl b2 8 + b3) :: words f rest
  | _, _ => []
  end.

Fixpoint chunks (fuel : nat) (ws : list N) : list (list N) :=
  match fuel, ws with
  | S f, _ :: _ => firstn 16 ws :: chunks f (skipn 16 ws)
  | _, _ => []
  end.

(** [rw] holds the message schedule in reverse: its head is W[t-1]. *)
Fixpoint schedule (n : nat) (rw : list N) : list N :=
  match n with
  | O => rev rw
  | S n' =>
      let w := add32 (add32 (ssig1 (nth 1 rw 0)) (nth 6 rw 0))
                     (add32 (ssig0 (nth 14 rw 0)) (nth 15 rw 0)) in
      schedule n' (w :: rw)
  end.

Record regs : Type :=
  Regs { ra : N; rb : N; rc : N; rd : N; re : N; rf : N; rg : N; rh : N }.

Definition round (r : regs) (kw : N * N) : regs :=
  let t1 := add32 (add32 (add32 (rh r) (bsig1 (re r)))
                         (add32 (ch (re r) (rf r) (rg r)) (fst kw))) (snd kw) in
  let t2 := add32 (bsig0 (ra r)) (maj (ra r) (rb r) (rc r)) in
  Regs (add32 t1 t2) (ra r) (rb r) (rc r) (add32 (rd r) t1) (re r) (rf r) (rg r).

Definition of_list (h : list N) : regs :=
  Regs (nth 0 h 0) (nth 1 h 0) (nth 2 h 0) (nth 3 h 0)
       (nth 4 h 0) (nth 5 h 0) (nth 6 h 0) (nth 7 h 0).

Definition to_list (r : regs) : list N :=
  [ra r; rb r; rc r; rd r; re r; rf r; rg r; rh r].

Definition compress (h : list N) (block : list N) : list N :=
  let w := schedule 48 (rev block) in
  let r := fold_left round (combine K w) (of_list h) in
  List.map (fun p => add32 (fst p) (snd p)) (combine h (to_list r)).

Definition digest_words (msg : list N) : list N :=
  let p := pad msg in
  fold_left compress (chunks (List.length p) (words (List.length p) p)) H0.

Definition hex_word (w : N) : list ascii :=
  List.map (fun i => hex_digit (N.land (N.shiftr w (4 * N.of_nat i)) 0xf)) (rev (seq 0 8)).

(** [hash.update(msg); hash.digest('hex')] *)
Definition hex_digest (msg : string) : string :=
  string_of_list_ascii
    (flat_map hex_word (digest_words (List.map N_of_ascii (list_ascii_of_string msg)))).

End Sha256.

(** ** The cache key *)

(** The user options: a JavaScript object, read field by field. *)
Abbreviation Options := (gmap string JsValue).

(** The fields [createHash] reads. *)
Definition tracked : list string :=
  ["tagName"; "themeFile"; "indexFile"; "appTitle"; "attributes"].

(** The [parts] array of [createHash] when it is joined. *)
Definition hashParts (opts : Options) : list string :=
  let parts := [] in
  let parts := if ToBoolean (get opts "tagName")
               then parts ++ ["tn=" +:+ ToString (get opts "tagName")] else parts in
  let parts := if ToBoolean (get opts "themeFile")
               then parts ++ ["tf=" +:+ ToString (get opts "themeFile")] else parts in
  let parts := if ToBoolean (get opts "indexFile")
               then parts ++ ["if=" +:+ ToString (get opts "indexFile")] else parts in
  let parts := if ToBoolean (get opts "appTitle")
               then parts ++ ["at=" +:+ ToString (get opts "appTitle")] else parts in
  let parts := if ToBoolean (get opts "attributes")
               then match JSON_stringify (get opts "attributes") with
                    | Normal text => parts ++ ["a=" +:+ default "undefined" text]
                    | Throw _ => parts
                    end
               else parts in
  parts.

(** The string handed to [hash.update]. *)
Definition hashMaterial (opts : Options) : string := join "|" (hashParts opts).

Definition createHash (opts : Options) : string :=
  Sha256.hex_digest (hashMaterial opts).

(** ** [path], POSIX flavour

    The paths of the model are those of a POSIX host. On a win32 host
    [path] is [path.win32], which joins with backslashes: what is proved of
    paths is proved for hosts whose [process.platform] is not win32. *)

Module Path.

Definition slash : ascii := ascii_of_N 47.

(** The segments of a path between its separators: [split "a//b"] is
    [["a"; ""; "b"]]. *)
Fixpoint split (sep : ascii) (s : string) : list string :=
  match s with
  | EmptyString => [""]
  | String c rest =>
      if Ascii.eqb c sep then "" :: split sep rest
      else match split sep rest with
           | seg :: segs => String c seg :: segs
           | [] => [String c ""]
           end
  end.

Definition startsWithSlash (p : string) : bool :=
  match p with
  | String c _ => Ascii.eqb c slash
  | EmptyString => false
  end.

Fixpoint endsWithSlash (p : string) : bool :=
  match p with
  | EmptyString => false
  | String c EmptyString => Ascii.eqb c slash
  | String _ rest => endsWithSlash rest
  end.

(** One segment of [normalizeString]; [stack] is the result so far, last
    segment first. *)
Definition normalizeSegment (allowAboveRoot : bool) (stack : list string) (seg : string)
  : list string :=
  if String.eqb seg "" || String.eqb seg "." then stack
  else if String.eqb seg ".." then
    match stack with
    | top :: below =>
        if String.eqb top ".." then (if allowAboveRoot then ".." :: stack else stack)
        else below
    | [] => if allowAboveRoot then [".."] else []
    end
  else seg :: stack.

Definition normalizeString (p : string) (allowAboveRoot : bool) : string :=
  join "/" (rev (fold_left (normalizeSegment allowAboveRoot) (split slash p) [])).

Definition normalize (p : string) : string :=
  if String.eqb p "" then "." else
  let isAbsolute := startsWithSlash p in
  let trailingSeparator := endsWithSlash p in
  let q := normalizeString p (negb isAbsolute) in
  if String.eqb q "" then
    (if isAbsolute then "/" else if trailingSeparator then "./" else ".")
  else
    let q := if trailingSeparator then q +:+ "/" else q in
    if isAbsolute then "/" +:+ q else q.

(** How the message of ERR_INVALID_ARG_TYPE names the value it received,
    as Node 14 and later word it. *)
Definition received (v : JsValue) : string :=
  match v with
  | JsUndefined => "undefined"
  | JsNull => "null"
  | JsBool b => "type boolean (" +:+ (if b then "true" else "false") +:+ ")"
  | JsBigInt n => "type bigint (" +:+ decimal n +:+ "n)"
  | JsString _ => "type string"
  | JsArray _ => "an instance of Array"
  | JsObject _ => "an instance of Object"
  end.

Definition invalidPath (v : JsValue) : JsError :=
  TypeError (Some "ERR_INVALID_ARG_TYPE")
    ("The " +:+ String dquote "path" +:+ String dquote ""
     +:+ " argument must be of type string. Received " +:+ received v).

(** [validateString]: [path.join] and [path.dirname] throw on an argument
    that is not a string. *)
Definition validateString (v : JsValue) : Completion string :=
  match v with
  | JsString s => Normal s
  | _ => Throw (invalidPath v)
  end.

Fixpoint validateAll (args : list JsValue) : Completion (list string) :=
  match args with
  | [] => Normal []
  | a :: rest => s ← validateString a; more ← validateAll rest; Normal (s :: more)
  end.

(** [path.join(...args)] *)
Definition join (args : list JsValue) : Completion string :=
  strs ← validateAll args;
  match List.filter (fun s => negb (String.eqb s "")) strs with
  | [] => Normal "."
  | parts => Normal (normalize (Js.join "/" parts))
  end.

(** The scan of [path.dirname] over the characters after the first, last
    character first: trailing separators, then the last segment, then the
    separator in front of it; what is left is [path.slice(1, end)] reversed. *)
Fixpoint dropSlashes (r : list ascii) : list ascii :=
  match r with
  | c :: rest => if Ascii.eqb c slash then dropSlashes rest else r
  | [] => []
  end.

Fixpoint dropSegment (r : list ascii) : list ascii :=
  match r with
  | c :: rest => if Ascii.eqb c slash then r else dropSegment rest
  | [] => []
  end.

(** [path.dirname(path)] *)
Definition dirname (p : string) : string :=
  match p with
  | EmptyString => "."
  | String c0 rest =>
      let hasRoot := Ascii.eqb c0 slash in
      match dropSegment (dropSlashes (rev (list_ascii_of_string rest))) with
      | [] => if hasRoot then "/" else "."
      | _ :: before =>
          if hasRoot && Nat.eqb (List.length before) 0 then "//"
          else String c0 (string_of_list_ascii (rev before))
      end
  end.

End Path.

(** ** The file system, the logger and the archives *)

(** The data of a file. A zip archive is kept as the entries it holds, each
    with its name and either its data or the error [openReadStream] reports
    for it; the byte format of the archive is left to [archiver] and
    [yauzl]. *)
#[warnings="-register-all"]
Inductive FileData : Type :=
| Bytes (s : string)
| Zip (entries : list (string * (JsError + FileData))).

Abbreviation ZipEntry := (string * (JsError + FileData))%type.

Definition fileName (entry : ZipEntry) : string := fst entry.
Definition entryData (entry : ZipEntry) : JsError + FileData := snd entry.

(** What a path leads to. The file systems of the model hold regular files
    and directories only: symbolic links, sockets and devices are left
    out. *)
Inductive Node : Type :=
| File (data : FileData)
| Directory.

(** A path names a node by its normalized spelling. *)
Abbreviation FileSystem := (gmap string Node).

Inductive LogEntry : Type :=
| LogDebug (msg : string)
| LogInfo (msg : string)
| LogWarn (e : JsError)
| LogError (e : JsError).

(** What the class acts on: the file system and the lines sent to the
    logger, oldest first. *)
Record World : Type := MkWorld {
  fs : FileSystem;
  logged : list LogEntry
}.

Definition setFs (w : World) (fs' : FileSystem) : World :=
  MkWorld fs' (logged w).

Definition logLine (l : LogEntry) (w : World) : World :=
  MkWorld (fs w) (logged w ++ [l]).

(** Synchronous code and async functions that do not wait for events: they
    act on the world and return a value or throw (reject). *)
Definition M (A : Type) : Type := World -> Completion A * World.

#[global] Instance M_ret : MRet M := fun A a w => (Normal a, w).

#[global] Instance M_bind : MBind M := fun A B k c w =>
  match c w with
  | (Normal a, w') => k a w'
  | (Throw e, w') => (Throw e, w')
  end.

Definition lift {A : Type} (c : Completion A) : M A := fun w => (c, w).
Definition log (l : LogEntry) : M unit := fun w => (Normal tt, logLine l w).
Definition readFs : M FileSystem := fun w => (Normal (fs w), w).

(** An error of the file system. Its message is abridged to the code and
    the path. *)
Definition fsError (code : string) (path : string) : JsError :=
  MkError "Error" (Some code) (code +:+ ": " +:+ path).

Module Fs.

(** The directories that need no entry: the root and the working directory. *)
Definition alwaysThere (p : string) : bool :=
  String.eqb p "/" || String.eqb p ".".

(** [fs.pathExists] *)
Definition pathExists (fs : FileSystem) (p : string) : bool :=
  match fs !! p with
  | Some _ => true
  | None => alwaysThere p
  end.

Definition isDirectory (fs : FileSystem) (p : string) : bool :=
  match fs !! p with
  | Some Directory => true
  | Some _ => false
  | None => alwaysThere p
  end.

(** The path and the directories above it, outermost first. *)
Fixpoint ancestors (above : option string) (segs : list string) : list string :=
  match segs with
  | [] => []
  | seg :: rest =>
      let here := match above with
                  | Some d => d +:+ "/" +:+ seg
                  | None => seg
                  end in
      here :: ancestors (Some here) rest
  end.

(** [fs.ensureDir]: directories made before a failure stay. *)
Fixpoint mkdirs (dirs : list string) (fs : FileSystem) : FileSystem * option JsError :=
  match dirs with
  | [] => (fs, None)
  | d :: rest =>
      match fs !! d with
      | Some Directory => mkdirs rest fs
      | Some _ =>
          (fs, Some (fsError (match rest with [] => "EEXIST" | _ => "ENOTDIR" end) d))
      | None =>
          if alwaysThere d then mkdirs rest fs
          else mkdirs rest (<[d := Directory]> fs)
      end
  end.

Definition ensureDir (fs : FileSystem) (dir : string) : FileSystem * option JsError :=
  mkdirs (List.filter (fun d => negb (String.eqb d ""))
            (ancestors None (Path.split Path.slash dir))) fs.

(** Opening [fs.createWriteStream(p)]: the file is created or truncated. *)
Definition openWrite (fs : FileSystem) (p : string) : Completion FileSystem :=
  if negb (isDirectory fs (Path.dirname p)) then Throw (fsError "ENOENT" p)
  else match fs !! p with
       | Some Directory => Throw (fsError "EISDIR" p)
       | _ => if alwaysThere p then Throw (fsError "EISDIR" p)
              else Normal (<[p := File (Bytes "")]> fs)
       end.

Fixpoint stripPrefix (pre s : string) : option string :=
  match pre, s with
  | EmptyString, _ => Some s
  | String a pre', String b s' => if Ascii.eqb a b then stripPrefix pre' s' else None
  | String _ _, EmptyString => None
  end.

Fixpoint hasSlash (s : string) : bool :=
  match s with
  | EmptyString => false
  | String c rest => Ascii.eqb c Path.slash || hasSlash rest
  end.

(** The path of [p] below the directory [dir], when it is below it. *)
Definition below (dir p : string) : option string :=
  match stripPrefix (if Path.endsWithSlash dir then dir else dir +:+ "/") p with
  | Some rel => if String.eqb rel "" then None else Some rel
  | None => None
  end.

(** What a [Dirent] says of itself. *)
Inductive Kind : Type := IsFile | IsDirectory | IsOther.

Definition kindOf (n : Node) : Kind :=
  match n with
  | File _ => IsFile
  | Directory => IsDirectory
  end.

(** [fs.readdirSync(dir, { withFileTypes: true })] *)
Definition readdirSync (fs : FileSystem) (dir : string) : Completion (list (string * Kind)) :=
  if isDirectory fs dir then
    Normal (omap (fun kn => match below dir (fst kn) with
                            | Some name => if hasSlash name then None
                                           else Some (name, kindOf (snd kn))
                            | None => None
                            end) (map_to_list fs))
  else if pathExists fs dir then Throw (fsError "ENOTDIR" dir)
  else Throw (fsError "ENOENT" dir).

End Fs.

(** ** The class [CacheBuild] *)

(** [process.platform] and [process.env]. *)
Record Process : Type := MkProcess {
  platform : string;
  env : gmap string string
}.

(** [process.env.NAME] *)
Definition envVar (process : Process) (name : string) : JsValue :=
  match env process !! name with
  | Some value => JsString value
  | None => JsUndefined
  end.

(** The fields of an instance. [hash] and [cacheFolder] stay [undefined]
    when the constructor does not set them. *)
Record CacheBuild : Type := MkCacheBuild {
  opts : Options;
  hash : JsValue;
  cacheFolder : JsValue
}.

(** The [if] chain of [locateAppDir] that decides on [dir]. *)
Definition baseDir (process : Process) (platform : string) : Completion string :=
  if negb (isUndefined (envVar process "APPDATA")) && ToBoolean (envVar process "APPDATA")
  then Normal (ToString (envVar process "APPDATA"))
  else if String.eqb platform "darwin" then
    Path.join [envVar process "HOME"; JsString "Library"; JsString "Preferences"]
  else if String.eqb platform "linux" then
    Path.join [envVar process "HOME"; JsString ".config"]
  else Normal "/var/local".

Definition locateAppDir (process : Process) (platformArg : option string) : M string :=
  let platform :=
    match platformArg with
    | Some p => if String.eqb p "" then platform process else p
    | None => platform process
    end in
  dir ← lift (baseDir process platform);
  dir ← lift (Path.join [JsString dir; JsString "api-console"; JsString "cache";
                         JsString "builds"]);
  _ ← log (LogDebug ("Setting builds cache path to " +:+ dir));
  mret dir.

Definition constructor (process : Process) (opts : Options) : M CacheBuild :=
  if negb (ToBoolean (get opts "noCache")) then
    let hash := createHash opts in
    _ ← log (LogDebug ("Build cache hash is " +:+ hash));
    dir ← locateAppDir process None;
    mret (MkCacheBuild opts (JsString hash) (JsString dir))
  else mret (MkCacheBuild opts JsUndefined JsUndefined).

(** [path.join(this.cacheFolder, `${this.hash}.zip`)] *)
Definition cacheFile (this : CacheBuild) : Completion string :=
  Path.join [cacheFolder this; JsString (ToString (hash this) +:+ ".zip")].

Definition hasCache (this : CacheBuild) : M bool :=
  if ToBoolean (get (opts this) "noCache") then mret false
  else
    location ← lift (cacheFile this);
    fs ← readFs;
    mret (Fs.pathExists fs location).

(** *** Restoring: the event loop of [_processZip]

    [yauzl] opens the archive with [lazyEntries]: it reads one entry of the
    central directory for each [readEntry()] and emits it as an 'entry'
    event; a [readEntry()] after the last entry emits 'end', on which the
    archive (opened with the default [autoClose]) is closed; 'close' is
    emitted once it is closed and no read stream is open.

    [yauzl] checks the name of an entry before it emits it; the check is not
    part of the loop below, which hands out every entry: [accepted] tells
    the names that pass it. A rejected promise that nobody handles is
    taken to warn only, as Node 10 to 14 do. *)

(** Where a promise stands for its caller; [Uncaught] is the exception no
    listener takes, on which the process ends. *)
Inductive Outcome : Type :=
| Pending
| Fulfilled
| Rejected (e : JsError)
| Uncaught (e : JsError).

(** Where the promise of one [_processZipEntry] call stands. The data of an
    entry that is piped arrives whole; an error of a stream while it is piped
    is left out. *)
Inductive Task : Type :=
| EnsuringDir (entry : ZipEntry) (dir : string)
| OpeningStream (entry : ZipEntry)
| Piping (entry : ZipEntry) (data : FileData) (dest : string)
| Finished
| Failed (e : JsError).

Record ZipFile : Type := MkZipFile {
  zipEntries : list ZipEntry;
  entriesRead : nat;
  readRequests : nat;
  isOpen : bool;
  closeEmitted : bool
}.

Record Restore : Type := MkRestore {
  world : World;
  zipFile : ZipFile;
  destination : string;
  promises : list Task;
  outcome : Outcome
}.

Inductive Event : Type :=
| ZipRead
| DirEnsured (i : nat)
| StreamOpened (i : nat)
| WriteClosed (i : nat)
| ZipClosed
| AllSettled.

Definition isPiping (t : Task) : bool :=
  match t with
  | Piping _ _ _ => true
  | _ => false
  end.

Definition inFlight (t : Task) : bool :=
  match t with
  | EnsuringDir _ _ | OpeningStream _ | Piping _ _ _ => true
  | Finished | Failed _ => false
  end.

(** [zip.readEntry()] *)
Definition readEntry (z : ZipFile) : ZipFile :=
  MkZipFile (zipEntries z) (entriesRead z) (S (readRequests z)) (isOpen z) (closeEmitted z).

Definition setTask (i : nat) (t : Task) (r : Restore) : Restore :=
  MkRestore (world r) (zipFile r) (destination r) (<[i := t]> (promises r)) (outcome r).

(** A rejected [_processZipEntry]: the [catch] of the 'entry' listener logs
    the cause and throws it again. *)
Definition fail (i : nat) (cause : JsError) (r : Restore) : Restore :=
  MkRestore (logLine (LogWarn cause) (world r)) (zipFile r) (destination r)
            (<[i := Failed cause]> (promises r)) (outcome r).

(** The 'entry' listener, up to the first [await] of [_processZipEntry]. *)
Definition onEntry (entry : ZipEntry) (r : Restore) : Restore :=
  if Path.endsWithSlash (fileName entry) then
    MkRestore (world r) (readEntry (zipFile r)) (destination r)
              (promises r ++ [Finished]) (outcome r)
  else
    match Path.join [JsString (destination r);
                     JsString (Path.dirname (fileName entry))] with
    | Normal dir =>
        MkRestore (world r) (zipFile r) (destination r)
                  (promises r ++ [EnsuringDir entry dir]) (outcome r)
    | Throw e =>
        MkRestore (logLine (LogWarn e) (world r)) (zipFile r) (destination r)
                  (promises r ++ [Failed e]) (outcome r)
    end.

(** The first rejection among the promises given to [Promise.all]. *)
Fixpoint firstFailed (ts : list Task) : option JsError :=
  match ts with
  | [] => None
  | Failed e :: _ => Some e
  | _ :: rest => firstFailed rest
  end.

Definition allFinished (ts : list Task) : bool :=
  forallb (fun t => match t with Finished => true | _ => false end) ts.

(** One turn of the event loop. *)
Definition fire (ev : Event) (r : Restore) : option Restore :=
  match outcome r with
  | Uncaught _ => None
  | _ =>
    let z := zipFile r in
    match ev with
    | ZipRead =>
        match readRequests z with
        | O => None
        | S pending =>
            if negb (isOpen z) then None else
            match zipEntries z !! entriesRead z with
            | Some entry =>
                Some (onEntry entry
                        (MkRestore (world r)
                           (MkZipFile (zipEntries z) (S (entriesRead z)) pending true
                                      (closeEmitted z))
                           (destination r) (promises r) (outcome r)))
            | None =>
                Some (MkRestore (world r)
                        (MkZipFile (zipEntries z) (entriesRead z) pending false
                                   (closeEmitted z))
                        (destination r) (promises r) (outcome r))
            end
        end
    | DirEnsured i =>
        match promises r !! i with
        | Some (EnsuringDir entry dir) =>
            match Fs.ensureDir (fs (world r)) dir with
            | (fs', None) =>
                let r := MkRestore (setFs (world r) fs') z (destination r) (promises r)
                                   (outcome r) in
                if isOpen z then Some (setTask i (OpeningStream entry) r)
                else Some (fail i (MkError "Error" None "closed") r)
            | (fs', Some e) =>
                Some (fail i e (MkRestore (setFs (world r) fs') z (destination r)
                                          (promises r) (outcome r)))
            end
        | _ => None
        end
    | StreamOpened i =>
        match promises r !! i with
        | Some (OpeningStream entry) =>
            match entryData entry with
            | inl err => Some (fail i err r)
            | inr data =>
                match dest ← Path.join [JsString (destination r); JsString (fileName entry)];
                      fs' ← Fs.openWrite (fs (world r)) dest;
                      mret (dest, fs') with
                | Normal (dest, fs') =>
                    Some (setTask i (Piping entry data dest)
                            (MkRestore (setFs (world r) fs') z (destination r) (promises r)
                                       (outcome r)))
                | Throw e =>
                    Some (MkRestore (world r) z (destination r) (promises r) (Uncaught e))
                end
            end
        | _ => None
        end
    | WriteClosed i =>
        match promises r !! i with
        | Some (Piping entry data dest) =>
            Some (setTask i Finished
                    (MkRestore (setFs (world r) (<[dest := File data]> (fs (world r))))
                               (readEntry z) (destination r) (promises r) (outcome r)))
        | _ => None
        end
    | ZipClosed =>
        if negb (isOpen z) && negb (closeEmitted z) && negb (existsb isPiping (promises r))
        then Some (MkRestore (logLine (LogDebug "Build copied from cache.") (world r))
                     (MkZipFile (zipEntries z) (entriesRead z) (readRequests z) false true)
                     (destination r) (promises r) (outcome r))
        else None
    | AllSettled =>
        match outcome r with
        | Pending =>
            if closeEmitted z then
              match firstFailed (promises r) with
              | Some e =>
                  Some (MkRestore (world r) z (destination r) (promises r) (Rejected e))
              | None =>
                  if allFinished (promises r)
                  then Some (MkRestore (world r) z (destination r) (promises r) Fulfilled)
                  else None
              end
            else None
        | _ => None
        end
    end
  end.

(** The events that may be due in a state. *)
Definition candidates (r : Restore) : list Event :=
  ZipRead :: ZipClosed :: AllSettled ::
  flat_map (fun i => [DirEnsured i; StreamOpened i; WriteClosed i])
           (seq 0 (List.length (promises r))).

(** The next state under the first event that is due, if any. *)
Definition next (r : Restore) : option Restore :=
  head (omap (fun ev => fire ev r) (candidates r)).

(** The loop runs until no event is due. *)
Fixpoint run (fuel : nat) (r : Restore) : Restore :=
  match fuel with
  | O => r
  | S fuel' =>
      match next r with
      | Some r' => run fuel' r'
      | None => r
      end
  end.

(** The callback of [yauzl.open(source, { lazyEntries: true }, ...)]. *)
Definition opened (source destination : string) (w : World) : Restore + JsError :=
  match fs w !! source with
  | Some (File (Zip entries)) =>
      inl (MkRestore w (readEntry (MkZipFile entries 0 0 true false)) destination [] Pending)
  | Some (File (Bytes _)) =>
      inr (MkError "Error" None "end of central directory record signature not found")
  | Some Directory => inr (fsError "EISDIR" source)
  | None => inr (fsError "ENOENT" source)
  end.

(** Entries, turns for each and the turns that end the run. *)
Definition turns (entries : list ZipEntry) : nat := 4 * List.length entries + 4.

Definition _processZip (source destination : string) (w : World) : Outcome * World :=
  match opened source destination w with
  | inr err => (Rejected err, w)
  | inl r =>
      let r := run (turns (zipEntries (zipFile r))) r in
      (outcome r, world r)
  end.

Definition restore (this : CacheBuild) (build : string) (w : World) : Outcome * World :=
  match cacheFile this with
  | Throw e => (Rejected e, w)
  | Normal source =>
      _processZip source build (logLine (LogDebug "Opening cached zip file.") w)
  end.

(** *** Packing: [cacheBuild] and [_createPackage] *)

(** What the archive and its output stream emit. *)
Inductive ArchiverSignal : Type :=
| Warning (err : JsError)
| ArchiverError (err : JsError)
| OutputClosed (pointer : N).

Definition resolve (o : Outcome) : Outcome :=
  match o with
  | Pending => Fulfilled
  | settled => settled
  end.

Definition reject (err : JsError) (o : Outcome) : Outcome :=
  match o with
  | Pending => Rejected err
  | settled => settled
  end.

Definition codeIs (err : JsError) (code : string) : bool :=
  match errCode err with
  | Some c => String.eqb c code
  | None => false
  end.

(** The listeners [_createPackage] registers, on the promise and the log. *)
Definition onWarning (err : JsError) (st : Outcome * World) : Outcome * World :=
  if codeIs err "ENOENT" then (fst st, logLine (LogWarn err) (snd st))
  else (reject err (fst st), logLine (LogError err) (snd st)).

Definition onError (err : JsError) (st : Outcome * World) : Outcome * World :=
  (reject err (fst st), logLine (LogError err) (snd st)).

Definition onClose (pointer : N) (st : Outcome * World) : Outcome * World :=
  (resolve (fst st),
   logLine (LogDebug (decimal (Z.of_N pointer) +:+ " total bytes."))
     (logLine (LogDebug "Cache build saved.") (snd st))).

Definition deliver (st : Outcome * World) (sig : ArchiverSignal) : Outcome * World :=
  match sig with
  | Warning err => onWarning err st
  | ArchiverError err => onError err st
  | OutputClosed pointer => onClose pointer st
  end.

(** The archiving primitive as the class meets it: the error [lstat] gives
    for a path when the archive comes to it, the error that stops the
    archive, the size it reports, and whether a directory handed to
    [archive.directory] gets a marker of its own besides those of the
    directories below it. *)
Record Primitive : Type := MkPrimitive {
  lstatError : string -> option JsError;
  fatal : option JsError;
  pointer : N;
  rootMarker : bool
}.

Inductive Queued : Type :=
| QFile (filepath name : string)
| QDirectory (dirpath destpath : string).

(** One path appended to the archive. *)
Definition append (prim : Primitive) (fs : FileSystem) (filepath name : string)
  : list ArchiverSignal * list ZipEntry :=
  match lstatError prim filepath with
  | Some err => ([Warning err], [])
  | None =>
      match fs !! filepath with
      | Some (File data) => ([], [(name, inr data)])
      | Some Directory => ([], [(name +:+ "/", inr (Bytes ""))])
      | None => ([Warning (fsError "ENOENT" filepath)], [])
      end
  end.

Definition gather (parts : list (list ArchiverSignal * list ZipEntry))
  : list ArchiverSignal * list ZipEntry :=
  (flat_map fst parts, flat_map snd parts).

(** [archive.file] and [archive.directory], when the archive comes to them. *)
Definition archiveItem (prim : Primitive) (fs : FileSystem) (item : Queued)
  : list ArchiverSignal * list ZipEntry :=
  match item with
  | QFile filepath name => append prim fs filepath name
  | QDirectory dirpath destpath =>
      gather ((if rootMarker prim then [append prim fs dirpath destpath] else [])
              ++ omap (fun kn => match Fs.below dirpath (fst kn) with
                                 | Some rel =>
                                     Some (append prim fs (fst kn)
                                             (destpath +:+ "/" +:+ rel))
                                 | None => None
                                 end) (map_to_list fs))
  end.

(** The body of [files.forEach]. *)
Definition enqueue (sources : string) (dirEnt : string * Fs.Kind)
  : Completion (list LogEntry * list Queued) :=
  let name := fst dirEnt in
  match snd dirEnt with
  | Fs.IsFile =>
      p ← Path.join [JsString sources; JsString name];
      mret ([LogDebug ("Adding " +:+ name +:+ " file to the cache...")], [QFile p name])
  | Fs.IsDirectory =>
      p ← Path.join [JsString sources; JsString name];
      mret ([LogDebug ("Adding " +:+ name +:+ " directory to the cache...")],
            [QDirectory p name])
  | Fs.IsOther => mret ([], [])
  end.

Fixpoint enqueueAll (sources : string) (files : list (string * Fs.Kind)) (w : World)
  : Completion (list Queued) * World :=
  match files with
  | [] => (Normal [], w)
  | dirEnt :: rest =>
      match enqueue sources dirEnt with
      | Throw e => (Throw e, w)
      | Normal (lines, items) =>
          match enqueueAll sources rest (fold_left (fun w l => logLine l w) lines w) with
          | (Normal more, w') => (Normal (items ++ more), w')
          | (Throw e, w') => (Throw e, w')
          end
      end
  end.

(** The output stream opens its file in a later turn than the one that
    reads the sources; it does so also when reading them has failed. When
    the file cannot be opened the stream is destroyed and closes (Node 14 and
    later): its 'close' listener runs, before the archive has emitted
    anything, and no archive is written. *)
Definition _createPackage (this : CacheBuild) (sources : string) (prim : Primitive)
    (w : World) : Outcome * World :=
  match cacheFile this with
  | Throw e => (Rejected e, w)
  | Normal dest =>
      match (match Fs.readdirSync (fs w) sources with
             | Normal files => enqueueAll sources files w
             | Throw e => (Throw e, w)
             end) with
      | (Throw e, w) =>
          let w := logLine (LogError e) w in
          match Fs.openWrite (fs w) dest with
          | Normal fs' => (Rejected e, setFs w fs')
          | Throw _ => (Rejected e, w)
          end
      | (Normal queue, w) =>
          match Fs.openWrite (fs w) dest with
          | Throw _ =>
              let '(signals, _) := gather (List.map (archiveItem prim (fs w)) queue) in
              fold_left deliver
                        (OutputClosed (pointer prim) :: signals
                         ++ match fatal prim with
                            | Some err => [ArchiverError err]
                            | None => []
                            end)
                        (Pending, w)
          | Normal fs' =>
              let w := setFs w fs' in
              let '(signals, entries) := gather (List.map (archiveItem prim (fs w)) queue) in
              match fatal prim with
              | Some err => fold_left deliver (signals ++ [ArchiverError err]) (Pending, w)
              | None =>
                  fold_left deliver (signals ++ [OutputClosed (pointer prim)])
                            (Pending, setFs w (<[dest := File (Zip entries)]> (fs w)))
              end
          end
      end
  end.

Definition cacheBuild (this : CacheBuild) (sources : string) (prim : Primitive)
    (w : World) : Outcome * World :=
  if ToBoolean (get (opts this) "noCache") then (Fulfilled, w)
  else
    let w := logLine (LogDebug ("caching build files to " +:+ ToString (cacheFolder this))) w in
    match Path.validateString (cacheFolder this) with
    | Throw e => (Rejected e, w)
    | Normal dir =>
        match Fs.ensureDir (fs w) dir with
        | (fs', Some e) => (Rejected e, setFs w fs')
        | (fs', None) => _createPackage this sources prim (setFs w fs')
        end
    end.

(** ** The class [Bundler] *)

Module Bundling.

Inductive Level : Type := debug | info | warn | error.

(** What the bundler acts on: the file system and the messages sent to the
    logger, oldest first. *)
Record Site : Type := MkSite {
  files : FileSystem;
  lines : list (Level * string)
}.

(** The state and the exceptions of the bundler's methods. *)
Definition B (A : Type) : Type := Site -> Completion A * Site.

#[global] Instance B_ret : MRet B := fun A a s => (Normal a, s).

#[global] Instance B_bind : MBind B := fun A B k c s =>
  match c s with
  | (Normal a, s') => k a s'
  | (Throw e, s') => (Throw e, s')
  end.

Definition liftB {A : Type} (c : Completion A) : B A := fun s => (c, s).

Definition say (level : Level) (msg : string) : B unit :=
  fun s => (Normal tt, MkSite (files s) (lines s ++ [(level, msg)])).

(** The options [_runCmd] hands to [exec]. *)
Record ExecOptions : Type := MkExecOptions {
  cwd : JsValue;
  maxBuffer : N
}.

(** A child process as the promise of [util.promisify(exec)] reports it:
    what it wrote to stdout and stderr, or the error it ended with, and the
    file system it leaves. *)
Definition Shell : Type :=
  string -> ExecOptions -> FileSystem -> Completion (string * string) * FileSystem.

Record Bundler : Type := MkBundler {
  workingDir : JsValue
}.

(** [get dest()] *)
Definition dest (this : Bundler) : Completion string :=
  Path.join [workingDir this; JsString "dist"].

(** [fs.remove]: the node at the path and all below it; nothing when there
    is none. *)
Definition fsRemove (fs : FileSystem) (p : string) : FileSystem :=
  filter (fun kn : string * Node => fst kn <> p /\ Fs.below p (fst kn) = None) fs.

Definition remove (p : string) : B unit :=
  fun s => (Normal tt, MkSite (fsRemove (files s) p) (lines s)).

Definition cleanOutput (this : Bundler) : B unit :=
  location ← liftB (dest this);
  _ ← say debug "Cleaning build output directory...";
  remove location.

Definition _runCmd (shell : Shell) (this : Bundler) (command : string) : B unit :=
  fun s =>
    match shell command (MkExecOptions (workingDir this) (1024 * 5000)) (files s) with
    | (Throw e, fs') => (Throw e, MkSite fs' (lines s))
    | (Normal (stdout, stderr), fs') =>
        let s := MkSite fs' (lines s) in
        let s := if negb (String.eqb stdout "")
                 then MkSite (files s) (lines s ++ [(debug, stdout)]) else s in
        let s := if negb (String.eqb stderr "")
                 then MkSite (files s) (lines s ++ [(error, stderr)]) else s in
        (Normal tt, s)
    end.

Definition runBundler (shell : Shell) (process : Process) (this : Bundler) : B unit :=
  _ ← say info "Bundling API Console...";
  command ← liftB (Path.join [JsString "node_modules"; JsString ".bin"; JsString "rollup"]);
  let command := if String.eqb (platform process) "win32"
                 then command +:+ ".cmd" else command in
  let command := command +:+ " -c rollup.config.js" in
  _ ← _runCmd shell this command;
  say info "Bundler finished.".

Definition bundle (shell : Shell) (process : Process) (this : Bundler) : B unit :=
  _ ← cleanOutput this;
  runBundler shell process this.

End Bundling.

(** ** The vocabulary of the specification *)

(** Two configurations agree on the given fields. *)
Definition agreeOn (fields : list string) (c1 c2 : Options) : Prop :=
  Forall (fun k => get c1 k = get c2 k) fields.

(** The separator of the parts. *)
Definition bar : ascii := ascii_of_N 124.

Fixpoint hasBar (s : string) : bool :=
  match s with
  | EmptyString => false
  | String c rest => Ascii.eqb c bar || hasBar rest
  end.

(** What a tracked field adds to the key material: nothing, or the text
    that follows its tag. *)
Definition fragment (c : Options) (k : string) : option string :=
  if negb (ToBoolean (get c k)) then None
  else if String.eqb k "attributes" then
    match JSON_stringify (get c k) with
    | Normal text => Some (default "undefined" text)
    | Throw _ => None
    end
  else Some (ToString (get c k)).

(** The four fields that are not last contribute no text with a separator. *)
Definition plain (c : Options) : bool :=
  forallb (fun k => match fragment c k with
                    | Some text => negb (hasBar text)
                    | None => true
                    end)
          ["tagName"; "themeFile"; "indexFile"; "appTitle"].

(** A part with its tag. *)
Definition tagged (tag : string) (text : option string) : list string :=
  match text with
  | Some t => [tag +:+ "=" +:+ t]
  | None => []
  end.

(** The part of the attributes, the only one that may hold a separator. *)
Definition isLast (p : string) : bool :=
  match Fs.stripPrefix "a=" p with
  | Some _ => true
  | None => false
  end.

(** Lists of parts in which only a last part of the attributes may hold a
    separator. *)
Fixpoint separable (ps : list string) : bool :=
  match ps with
  | [] => true
  | p :: rest =>
      negb (String.eqb p "")
      && (if isLast p then match rest with [] => true | _ => false end
          else negb (hasBar p) && separable rest)
  end.

(** What follows a part in the material: nothing, or a separator and more. *)
Definition isTail (t : string) : Prop := t = "" \/ exists r, t = String bar r.

(** The two configurations of the separator collision. *)
Definition collideA : Options := <["tagName" := JsString "a|tf=b"]> ∅.
Definition collideB : Options :=
  <["tagName" := JsString "a"]> (<["themeFile" := JsString "b"]> ∅).

(** A configuration with an empty title, and the same without a title. *)
Definition untitledA : Options :=
  <["tagName" := JsString "4.0.0"]> (<["appTitle" := JsString ""]> ∅).
Definition untitledB : Options := <["tagName" := JsString "4.0.0"]> ∅.

(** A segment that [normalizeString] keeps as it is. *)
Definition isPlain (seg : string) : bool :=
  negb (String.eqb seg "" || String.eqb seg "." || String.eqb seg "..").

(** The stacks [normalizeString] builds: kept segments, above the parent
    steps that a relative path may start with. *)
Inductive canon (allowAboveRoot : bool) : list string -> Prop :=
| canon_nil : canon allowAboveRoot []
| canon_dots (below : list string) :
    allowAboveRoot = true -> Forall (fun seg => seg = "..") below ->
    canon allowAboveRoot (".." :: below)
| canon_plain (seg : string) (below : list string) :
    isPlain seg = true -> canon allowAboveRoot below ->
    canon allowAboveRoot (seg :: below).

(** A normalized path of at least one segment, without a separator at its
    end. *)
Definition normalForm (p : string) : Prop :=
  exists (absolute : bool) (stack : list string),
    stack <> [] /\ canon (negb absolute) stack
    /\ Forall (fun seg => Fs.hasSlash seg = false) stack
    /\ p = (if absolute then "/" else "") +:+ Js.join "/" (rev stack).

(** The platform [locateAppDir] decides on. *)
Definition effectivePlatform (process : Process) (platformArg : option string) : string :=
  match platformArg with
  | Some p => if String.eqb p "" then platform process else p
  | None => platform process
  end.

(** The base directory in the words of the specification: APPDATA when it is
    set and not empty, else the default of the platform; [None] when that
    default needs a home directory and HOME is not set. *)
Definition specBase (process : Process) (platform : string) : option string :=
  match env process !! "APPDATA" with
  | Some (String c appdata) => Some (String c appdata)
  | _ =>
      if String.eqb platform "darwin" then
        home ← env process !! "HOME"; Some (home +:+ "/Library/Preferences")
      else if String.eqb platform "linux" then
        home ← env process !! "HOME"; Some (home +:+ "/.config")
      else Some "/var/local"
  end.

(** The strings [locateAppDir] joins in front of the folder of the cache. *)
Definition specPieces (process : Process) (platform : string) : option (list string) :=
  match env process !! "APPDATA" with
  | Some (String c appdata) => Some [String c appdata]
  | _ =>
      if String.eqb platform "darwin" then
        home ← env process !! "HOME"; Some [home; "Library"; "Preferences"]
      else if String.eqb platform "linux" then
        home ← env process !! "HOME"; Some [home; ".config"]
      else Some ["/var/local"]
  end.

(** One [path.join] of strings: the strings that are not empty, with a
    separator between them, normalized. *)
Definition joined (parts : list string) : string :=
  match List.filter (fun s => negb (String.eqb s "")) parts with
  | [] => "."
  | kept => Path.normalize (Js.join "/" kept)
  end.

(** What [path.normalize] makes of the stack of segments it has kept. *)
Definition render (absolute trailing : bool) (stack : list string) : string :=
  let q := Js.join "/" (rev stack) in
  if String.eqb q "" then
    (if absolute then "/" else if trailing then "./" else ".")
  else
    let q := if trailing then q +:+ "/" else q in
    if absolute then "/" +:+ q else q.

(** The host is a POSIX one: [path] is [path.posix] wherever
    [process.platform] is not win32. *)
Definition posixHost (process : Process) : Prop := platform process <> "win32".

(** The directories of the environment are spelled normalized. *)
Definition normalDirs (process : Process) : Prop :=
  (forall dir, env process !! "APPDATA" = Some dir -> dir <> "" -> normalForm dir)
  /\ (forall dir, env process !! "HOME" = Some dir -> normalForm dir).

(** The folder of the cache below the base directory. *)
Definition cacheSegments : list string := ["api-console"; "cache"; "builds"].

(** The state after the given events, when each is due in its turn. *)
Fixpoint replay (evs : list Event) (r : Restore) : option Restore :=
  match evs with
  | [] => Some r
  | ev :: rest =>
      match fire ev r with
      | Some r' => replay rest r'
      | None => None
      end
  end.

Definition countb (p : Task -> bool) (ts : list Task) : nat :=
  List.length (List.filter p ts).

Definition isFailed (t : Task) : bool :=
  match t with
  | Failed _ => true
  | _ => false
  end.

(** The turns an entry still takes. *)
Definition weight (t : Task) : nat :=
  match t with
  | EnsuringDir _ _ => 3
  | OpeningStream _ => 2
  | Piping _ _ _ => 1
  | Finished | Failed _ => 0
  end.

(** A bound on the turns that are left. *)
Definition turnsLeft (r : Restore) : nat :=
  4 * (List.length (zipEntries (zipFile r)) - entriesRead (zipFile r))
  + list_sum (List.map weight (promises r))
  + (if isOpen (zipFile r) then 1 else 0)
  + (if closeEmitted (zipFile r) then 0 else 1)
  + match outcome r with
    | Pending => 2
    | Fulfilled | Rejected _ => 1
    | Uncaught _ => 0
    end.

(** What holds of the event loop in every state it reaches. *)
Record Invariant (r : Restore) : Prop := MkInvariant {
  inv_one : countb inFlight (promises r) + readRequests (zipFile r) <= 1;
  inv_failed : existsb isFailed (promises r) = true ->
               countb inFlight (promises r) = 0 /\ readRequests (zipFile r) = 0
               /\ isOpen (zipFile r) = true /\ outcome r = Pending;
  inv_closed : isOpen (zipFile r) = false ->
               countb inFlight (promises r) = 0 /\ readRequests (zipFile r) = 0;
  inv_emitted : closeEmitted (zipFile r) = true -> isOpen (zipFile r) = false;
  inv_settled : outcome r = Fulfilled \/ (exists e, outcome r = Rejected e) ->
                closeEmitted (zipFile r) = true
}.

(** The archive warns of nothing but the errors of [lstat] and the paths it
    does not find. *)
Definition warned (prim : Primitive) (sig : ArchiverSignal) : Prop :=
  exists err, sig = Warning err
              /\ (codeIs err "ENOENT" = true \/ exists p, lstatError prim p = Some err).

(** The names [yauzl] hands to the 'entry' listener as they are: it turns
    the backslashes of a name into separators, and refuses an absolute name
    and a name with a [..] segment with an 'error' event, for which
    [_processZip] has no listener. *)
Definition isLetter (c : ascii) : bool :=
  let n := N_of_ascii c in
  ((65 <=? n) && (n <=? 90) || (97 <=? n) && (n <=? 122))%N.

Definition accepted (name : string) : bool :=
  negb (existsb (Ascii.eqb backslash) (list_ascii_of_string name))
  && negb (Path.startsWithSlash name)
  && negb match name with
          | String c (String colon _) => isLetter c && Ascii.eqb colon ":"
          | _ => false
          end
  && negb (existsb (String.eqb "..") (Path.split Path.slash name)).

(** Where a restore writes an entry that is a file. *)
Definition target (destination : string) (entry : ZipEntry) : option string :=
  if Path.endsWithSlash (fileName entry) then None
  else match Path.join [JsString destination; JsString (fileName entry)] with
       | Normal p => Some p
       | Throw _ => None
       end.

Definition targets (destination : string) (entries : list ZipEntry) : list string :=
  omap (target destination) entries.

(** What the promise of an entry says of the entry and of the files. *)
Definition tracks (d : string) (fs : FileSystem) (entry : ZipEntry) (t : Task) : Prop :=
  match t with
  | EnsuringDir e _ | OpeningStream e =>
      e = entry /\ Path.endsWithSlash (fileName entry) = false
  | Piping e data dst =>
      e = entry /\ entryData entry = inr data /\ target d entry = Some dst
  | Finished =>
      Path.endsWithSlash (fileName entry) = true
      \/ exists data dst, entryData entry = inr data /\ target d entry = Some dst
                          /\ fs !! dst = Some (File data)
  | Failed _ => True
  end.

(** The promises follow the entries of the archive in their order. *)
Record Extracting (es : list ZipEntry) (d : string) (r : Restore) : Prop := MkExtracting {
  ex_entries : zipEntries (zipFile r) = es;
  ex_destination : destination r = d;
  ex_read : List.length (promises r) = entriesRead (zipFile r);
  ex_bound : entriesRead (zipFile r) <= List.length es;
  ex_end : isOpen (zipFile r) = false -> entriesRead (zipFile r) = List.length es;
  ex_tasks : forall i t, promises r !! i = Some t ->
             exists entry, es !! i = Some entry /\ tracks d (fs (world r)) entry t
}.

(** While the archive is open exactly one thing keeps the loop going or has
    stopped it: a request for an entry, an entry in flight, or a failure. *)
Definition Driven (r : Restore) : Prop :=
  isOpen (zipFile r) = true ->
  countb inFlight (promises r) + readRequests (zipFile r) + countb isFailed (promises r) = 1.

(** A restore of directory markers only. *)
Record Skipping (w : World) (r : Restore) : Prop := MkSkipping {
  sk_fs : fs (world r) = fs w;
  sk_logged : logged (world r)
              = logged w ++ (if closeEmitted (zipFile r)
                             then [LogDebug "Build copied from cache."] else []);
  sk_tasks : Forall (fun t => t = Finished) (promises r);
  sk_outcome : outcome r = Pending \/ outcome r = Fulfilled
}.

(** The nodes below a directory, by their paths relative to it. *)
Definition tree (fs : FileSystem) (dir : string) : gmap string Node :=
  list_to_map (omap (fun kn : string * Node =>
                       match Fs.below dir (fst kn) with
                       | Some rel => Some (rel, snd kn)
                       | None => None
                       end) (map_to_list fs)).

(** The worlds of the scenarios. *)
Definition linuxProcess : Process := MkProcess "linux" (<["HOME" := "/home/user"]> ∅).

Definition exampleOptions : Options := <["tagName" := JsString "4.0.0"]> ∅.

(** A build with the files a.txt and sub/b.txt, and an empty destination. *)
Definition sourceTree (a b : FileData) : FileSystem :=
  list_to_map [("/work", Directory); ("/work/dist", Directory);
               ("/work/dist/a.txt", File a); ("/work/dist/sub", Directory);
               ("/work/dist/sub/b.txt", File b); ("/work/build", Directory)].

(** An archive that emits nothing but the close of its output. *)
Definition quiet (pointer : N) (rootMarker : bool) : Primitive :=
  MkPrimitive (fun _ => None) None pointer rootMarker.

(** A store in /cache, a build of two files, and archives that find a.txt
    gone, or not to be read, when they come to it. *)
Definition packStore : CacheBuild :=
  MkCacheBuild exampleOptions (JsString "k") (JsString "/cache").

Definition packWorld : World :=
  MkWorld (list_to_map [("/cache", Directory); ("/work", Directory);
                        ("/work/dist", Directory);
                        ("/work/dist/a.txt", File (Bytes "A"));
                        ("/work/dist/b.txt", File (Bytes "B"))]) [].

Definition failingOn (code : string) : Primitive :=
  MkPrimitive (fun p => if String.eqb p "/work/dist/a.txt"
                        then Some (fsError code p) else None)
              None 22 false.

(** An archive whose second entry cannot be read. *)
Definition unsupported : JsError :=
  MkError "Error" None "unsupported compression method: 99".

Definition brokenArchive : list ZipEntry :=
  [("a.txt", inr (Bytes "A")); ("b.txt", inl unsupported); ("c.txt", inr (Bytes "C"))].

Definition brokenWorld : World :=
  MkWorld (list_to_map [("/cache", Directory); ("/cache/k.zip", File (Zip brokenArchive));
                        ("/work", Directory); ("/work/build", Directory)]) [].

(** An archive of a directory marker and a file, in a store. *)
Definition markerWorld : World :=
  MkWorld (list_to_map [("/cache", Directory);
                        ("/cache/k.zip",
                         File (Zip [("sub/", inr (Bytes "")); ("sub/b.txt", inr (Bytes "B"))]));
                        ("/work", Directory); ("/work/build", Directory)]) [].

(** * Properties *)

#[local] Arguments String.append : simpl nomatch.

(** ** SHA-256 on the test vectors of FIPS 180 *)

Example sha256_empty :
  Sha256.hex_digest ""
  = "e3b0c44298fc1c149afbf4c8996fb92427ae41e4649b934ca495991b7852b855".
Proof. vm_compute. reflexivity. Qed.

Example sha256_abc :
  Sha256.hex_digest "abc"
  = "ba7816bf8f01cfea414140de5dae2223b00361a396177a9cb410ff61f20015ad".
Proof. vm_compute. reflexivity. Qed.

Example sha256_two_blocks :
  Sha256.hex_digest "abcdbcdecdefdefgefghfghighijhijkijkljklmklmnlmnomnopnopq"
  = "248d6a61d20638b8e5c026930c3e6039a33ce45964ff2167f6ecedd419db06c1".
Proof. vm_compute. reflexivity. Qed.

(** ** The cache key *)

Lemma hashParts_agree (c1 c2 : Options) :
  agreeOn tracked c1 c2 -> hashParts c1 = hashParts c2.
Proof.
  unfold agreeOn, tracked. intros H.
  repeat match goal with
         | H : Forall _ (_ :: _) |- _ => apply Forall_cons in H as [? H]
         end.
  cbv beta in *. unfold hashParts.
  repeat match goal with
         | E : get c1 _ = get c2 _ |- _ => rewrite E; clear E
         end.
  reflexivity.
Qed.

(** C1. Two configurations that agree on every tracked field (tagName,
    themeFile, indexFile, appTitle, attributes) get the same cache key,
    whatever their other fields hold. *)
Theorem createHash_agree (c1 c2 : Options) :
  agreeOn tracked c1 c2 -> createHash c1 = createHash c2.
Proof.
  intros H. unfold createHash, hashMaterial. by rewrite (hashParts_agree c1 c2 H).
Qed.

Lemma createHash_agree_witness :
  let c1 : Options := <["tagName" := JsString "4.0.0"]> (<["noCache" := JsBool true]> ∅) in
  let c2 : Options :=
    <["tagName" := JsString "4.0.0"]> (<["destination" := JsString "build"]> ∅) in
  agreeOn tracked c1 c2 /\ createHash c1 = createHash c2.
Proof.
  intros c1 c2.
  assert (H : agreeOn tracked c1 c2) by (repeat constructor).
  split; [exact H | exact (createHash_agree c1 c2 H)].
Defined.

(** A field that is not tracked does not influence the key. *)
Lemma createHash_untracked (c : Options) (k : string) (v : JsValue) :
  k ∉ tracked -> createHash (<[k := v]> c) = createHash c.
Proof.
  intros Hk. unfold createHash, hashMaterial. f_equal. f_equal.
  apply hashParts_agree. unfold agreeOn.
  apply Forall_forall. intros f Hf. unfold get.
  rewrite lookup_insert_ne; [done | intros ->; contradiction].
Qed.

Lemma get_insert_eq (c : Options) (k : string) (v : JsValue) : get (<[k := v]> c) k = v.
Proof. unfold get. by rewrite lookup_insert_eq. Qed.

Lemma get_insert_ne (c : Options) (k k' : string) (v : JsValue) :
  k <> k' -> get (<[k := v]> c) k' = get c k'.
Proof. intros H. unfold get. by rewrite lookup_insert_ne. Qed.

Lemma get_delete_eq (c : Options) (k : string) : get (delete k c) k = JsUndefined.
Proof. unfold get. by rewrite lookup_delete_eq. Qed.

Lemma get_delete_ne (c : Options) (k k' : string) :
  k <> k' -> get (delete k c) k' = get c k'.
Proof. intros H. unfold get. by rewrite lookup_delete_ne. Qed.

Ltac get_simpl :=
  repeat first
    [ rewrite get_insert_eq
    | rewrite get_delete_eq
    | rewrite get_insert_ne by discriminate
    | rewrite get_delete_ne by discriminate ].

Lemma hashParts_falsy (c : Options) (k : string) (v : JsValue) :
  k ∈ tracked -> ToBoolean v = false ->
  hashParts (<[k := v]> c) = hashParts (delete k c).
Proof.
  unfold tracked. intros Hk Hv.
  repeat (apply elem_of_cons in Hk as [-> | Hk]);
    [ .. | by apply elem_of_nil in Hk ];
    unfold hashParts; get_simpl; rewrite Hv; reflexivity.
Qed.

(** C10. A tracked field with a falsy value contributes no fragment: the
    parts, and so the key, are those of the configuration without the
    field. *)
Theorem falsy_field_is_absent (c : Options) (k : string) (v : JsValue) :
  k ∈ tracked -> ToBoolean v = false ->
  hashParts (<[k := v]> c) = hashParts (delete k c)
  /\ createHash (<[k := v]> c) = createHash (delete k c).
Proof.
  intros Hk Hv. pose proof (hashParts_falsy c k v Hk Hv) as H.
  split; [exact H | unfold createHash, hashMaterial; by rewrite H].
Qed.

Lemma falsy_field_is_absent_witness :
  let c : Options := <["tagName" := JsString "4.0.0"]> ∅ in
  "appTitle" ∈ tracked /\ ToBoolean (JsString "") = false
  /\ createHash (<["appTitle" := JsString ""]> c) = createHash (delete "appTitle" c).
Proof.
  intros c.
  assert (Hk : "appTitle" ∈ tracked) by (unfold tracked; repeat constructor).
  assert (Hv : ToBoolean (JsString "") = false) by reflexivity.
  split; [exact Hk | split; [exact Hv |]].
  exact (proj2 (falsy_field_is_absent c "appTitle" (JsString "") Hk Hv)).
Defined.

(** The empty title of the specification's example, on an arbitrary
    configuration. *)
Lemma empty_appTitle_same_key (c : Options) :
  createHash (<["appTitle" := JsString ""]> c) = createHash (delete "appTitle" c).
Proof.
  unfold createHash, hashMaterial. rewrite hashParts_falsy; [done | | done].
  unfold tracked. repeat constructor.
Qed.

(** *** Separation of the key material *)

Lemma hashParts_tagged (c : Options) :
  hashParts c
  = tagged "tn" (fragment c "tagName") ++ tagged "tf" (fragment c "themeFile")
    ++ tagged "if" (fragment c "indexFile") ++ tagged "at" (fragment c "appTitle")
    ++ tagged "a" (fragment c "attributes").
Proof.
  unfold hashParts, fragment. cbn [String.eqb Ascii.eqb Bool.eqb].
  destruct (ToBoolean (get c "tagName")), (ToBoolean (get c "themeFile")),
    (ToBoolean (get c "indexFile")), (ToBoolean (get c "appTitle")),
    (ToBoolean (get c "attributes")); cbn [negb tagged app];
    try reflexivity; destruct (JSON_stringify (get c "attributes")); reflexivity.
Qed.

Lemma append_nil_r (s : string) : s +:+ "" = s.
Proof. induction s; simpl; congruence. Qed.

Lemma join_cons (sep p : string) (rest : list string) :
  Js.join sep (p :: rest)
  = p +:+ match rest with [] => "" | _ => sep +:+ Js.join sep rest end.
Proof.
  destruct rest; simpl; [| reflexivity]. by rewrite append_nil_r.
Qed.

Lemma tail_of_join (rest : list string) :
  isTail match rest with [] => "" | _ => "|" +:+ Js.join "|" rest end.
Proof. destruct rest; [by left | right; eexists; reflexivity]. Qed.

Lemma cut_at_bar (p q t1 t2 : string) :
  hasBar p = false -> hasBar q = false -> isTail t1 -> isTail t2 ->
  p +:+ t1 = q +:+ t2 -> p = q /\ t1 = t2.
Proof.
  revert q. induction p as [| a p IH]; intros [| b q] Hp Hq H1 H2 E; simpl in *.
  - done.
  - destruct H1 as [-> | [r ->]]; [discriminate |].
    injection E as <- _. apply orb_false_elim in Hq as [Hb _].
    by rewrite Ascii.eqb_refl in Hb.
  - destruct H2 as [-> | [r ->]]; [discriminate |].
    injection E as -> _. apply orb_false_elim in Hp as [Hb _].
    by rewrite Ascii.eqb_refl in Hb.
  - injection E as -> E. apply orb_false_elim in Hp as [_ Hp].
    apply orb_false_elim in Hq as [_ Hq].
    destruct (IH q Hp Hq H1 H2 E) as [-> ->]. done.
Qed.

Lemma last_part_apart (q t : string) :
  q <> "" -> isLast q = false -> isTail t -> isLast (q +:+ t) = false.
Proof.
  intros Hq Hl Ht. unfold isLast in *.
  destruct q as [| c1 [| c2 q]]; [done | |].
  - destruct Ht as [-> | [r ->]]; cbn [Fs.stripPrefix String.append] in *; [done |].
    destruct (Ascii.eqb _ c1); [| done].
    destruct (Ascii.eqb _ bar) eqn:E; [| done].
    by apply Ascii.eqb_eq in E.
  - cbn [Fs.stripPrefix String.append] in *. destruct (Ascii.eqb _ c1); [| done].
    destruct (Ascii.eqb _ c2); done.
Qed.

Lemma join_inj (ps1 ps2 : list string) :
  separable ps1 = true -> separable ps2 = true ->
  Js.join "|" ps1 = Js.join "|" ps2 -> ps1 = ps2.
Proof.
  revert ps2. induction ps1 as [| p r1 IH]; intros [| q r2] W1 W2 E.
  - done.
  - rewrite join_cons in E. simpl in W2.
    destruct q; [done | discriminate].
  - rewrite join_cons in E. simpl in W1.
    destruct p; [done | discriminate].
  - rewrite !join_cons in E.
    cbn [separable] in W1, W2.
    apply andb_prop in W1 as [Np W1]. apply andb_prop in W2 as [Nq W2].
    apply negb_true_iff, String.eqb_neq in Np.
    apply negb_true_iff, String.eqb_neq in Nq.
    pose proof (tail_of_join r1) as T1. pose proof (tail_of_join r2) as T2.
    destruct (isLast p) eqn:Lp, (isLast q) eqn:Lq.
    + destruct r1, r2; try done.
      rewrite !append_nil_r in E. congruence.
    + destruct r1; [| done]. apply andb_prop in W2 as [_ _].
      pose proof (last_part_apart q _ Nq Lq T2) as L.
      rewrite <- E, append_nil_r in L. congruence.
    + destruct r2; [| done]. apply andb_prop in W1 as [_ _].
      pose proof (last_part_apart p _ Np Lp T1) as L.
      rewrite E, append_nil_r in L. congruence.
    + apply andb_prop in W1 as [Bp W1]. apply andb_prop in W2 as [Bq W2].
      apply negb_true_iff in Bp. apply negb_true_iff in Bq.
      destruct (cut_at_bar p q _ _ Bp Bq T1 T2 E) as [-> Et].
      f_equal. destruct r1, r2; try done.
      apply IH; [done | done |]. by injection Et.
Qed.

Lemma tagged_inj (a1 a2 a3 a4 a5 b1 b2 b3 b4 b5 : option string) :
  tagged "tn" a1 ++ tagged "tf" a2 ++ tagged "if" a3 ++ tagged "at" a4 ++ tagged "a" a5
  = tagged "tn" b1 ++ tagged "tf" b2 ++ tagged "if" b3 ++ tagged "at" b4 ++ tagged "a" b5 ->
  a1 = b1 /\ a2 = b2 /\ a3 = b3 /\ a4 = b4 /\ a5 = b5.
Proof.
  destruct a1, b1; destruct a2, b2; destruct a3, b3; destruct a4, b4; destruct a5, b5;
    intros E; simplify_eq/=; done.
Qed.

Lemma separable_tagged (a1 a2 a3 a4 a5 : option string) :
  Forall (fun a => match a with Some t => hasBar t = false | None => True end)
         [a1; a2; a3; a4] ->
  separable (tagged "tn" a1 ++ tagged "tf" a2 ++ tagged "if" a3 ++ tagged "at" a4
             ++ tagged "a" a5) = true.
Proof.
  intros H.
  repeat match goal with
         | H : Forall _ (_ :: _) |- _ => apply Forall_cons in H as [? H]
         end.
  destruct a1, a2, a3, a4, a5; simpl in *;
    repeat match goal with
           | E : hasBar _ = false |- _ => rewrite E; clear E
           end; reflexivity.
Qed.

Lemma separable_parts (c : Options) : plain c = true -> separable (hashParts c) = true.
Proof.
  intros H. rewrite hashParts_tagged. apply separable_tagged.
  unfold plain in H. cbn [forallb] in H.
  repeat (apply andb_prop in H as [? H]).
  repeat constructor;
    match goal with
    | |- match ?o with _ => _ end => destruct o; [by apply negb_true_iff | done]
    end.
Qed.

Lemma hashMaterial_inj (c1 c2 : Options) :
  plain c1 = true -> plain c2 = true ->
  hashMaterial c1 = hashMaterial c2 ->
  Forall (fun k => fragment c1 k = fragment c2 k) tracked.
Proof.
  intros P1 P2 E. unfold hashMaterial in E.
  apply join_inj in E; [| by apply separable_parts ..].
  rewrite !hashParts_tagged in E. apply tagged_inj in E.
  unfold tracked. repeat constructor; tauto.
Qed.

(** C2, as the code has it. Among configurations whose tagName, themeFile,
    indexFile and appTitle hold no separator, two that differ in what a
    tracked field contributes get different key material; they can only get
    the same key if SHA-256 collides on the two materials. *)
Theorem hashMaterial_separates (c1 c2 : Options) :
  plain c1 = true -> plain c2 = true ->
  Exists (fun k => fragment c1 k <> fragment c2 k) tracked ->
  hashMaterial c1 <> hashMaterial c2.
Proof.
  intros P1 P2 D E.
  pose proof (hashMaterial_inj c1 c2 P1 P2 E) as A.
  apply Exists_exists in D as (k & Hk & Hne).
  rewrite Forall_forall in A. by apply Hne, A.
Qed.

Lemma hashMaterial_separates_witness :
  let c1 : Options := <["tagName" := JsString "4.0.0"]> ∅ in
  let c2 : Options := <["tagName" := JsString "4.0.1"]> ∅ in
  plain c1 = true /\ plain c2 = true
  /\ Exists (fun k => fragment c1 k <> fragment c2 k) tracked
  /\ hashMaterial c1 <> hashMaterial c2.
Proof.
  intros c1 c2.
  assert (P1 : plain c1 = true) by reflexivity.
  assert (P2 : plain c2 = true) by reflexivity.
  assert (D : Exists (fun k => fragment c1 k <> fragment c2 k) tracked)
    by (apply Exists_cons_hd; vm_compute; discriminate).
  split; [exact P1 | split; [exact P2 | split; [exact D |]]].
  exact (hashMaterial_separates c1 c2 P1 P2 D).
Defined.

(** C2, as it is stated, fails. A tag name that holds the separator and the
    next tag gets the material, and the key, of a tag name and a theme file;
    and a title that is the empty string gets the key of no title. *)
Lemma key_collisions :
  (get collideA "tagName" <> get collideB "tagName"
   /\ get collideA "themeFile" <> get collideB "themeFile"
   /\ hashMaterial collideA = "tn=a|tf=b"
   /\ hashMaterial collideB = "tn=a|tf=b"
   /\ createHash collideA = createHash collideB)
  /\ (get untitledA "appTitle" <> get untitledB "appTitle"
      /\ createHash untitledA = createHash untitledB).
Proof.
  split.
  - split; [vm_compute; discriminate |]. split; [vm_compute; discriminate |].
    split; [vm_compute; reflexivity |]. split; [vm_compute; reflexivity |].
    vm_compute. reflexivity.
  - split; [vm_compute; discriminate |]. vm_compute. reflexivity.
Qed.

(** What a string-valued field contributes. *)
Lemma fragment_string (c : Options) (k s : string) :
  k <> "attributes" -> get c k = JsString s -> s <> "" -> fragment c k = Some s.
Proof.
  intros Hk E Hs. unfold fragment. rewrite E. simpl.
  apply String.eqb_neq in Hs. rewrite Hs. simpl.
  apply String.eqb_neq in Hk. by rewrite Hk.
Qed.

(** ** Paths *)

Lemma app_assoc_str (a b c : string) : (a +:+ b) +:+ c = a +:+ b +:+ c.
Proof. induction a; simpl; congruence. Qed.

Lemma split_nonempty (sep : ascii) (s : string) : Path.split sep s <> [].
Proof.
  destruct s as [| c s]; simpl; [done |].
  destruct (Ascii.eqb c sep); [done |]. by destruct (Path.split sep s).
Qed.

Lemma split_app (a b : string) :
  Path.split Path.slash (a +:+ "/" +:+ b)
  = Path.split Path.slash a ++ Path.split Path.slash b.
Proof.
  change (a +:+ "/" +:+ b) with (a +:+ String "/" b).
  induction a as [| c a IH]; [reflexivity |].
  cbn [String.append Path.split]. rewrite IH.
  destruct (Ascii.eqb c Path.slash); [reflexivity |].
  pose proof (split_nonempty Path.slash a).
  by destruct (Path.split Path.slash a).
Qed.

Lemma split_plain (s : string) :
  Fs.hasSlash s = false -> Path.split Path.slash s = [s].
Proof.
  induction s as [| c s IH]; [reflexivity |].
  cbn [Fs.hasSlash Path.split]. intros H.
  apply orb_false_elim in H as [-> H]. by rewrite (IH H).
Qed.

Lemma split_noslash (s : string) :
  Forall (fun seg => Fs.hasSlash seg = false) (Path.split Path.slash s).
Proof.
  induction s as [| c s IH]; [by repeat constructor |].
  cbn [Path.split]. destruct (Ascii.eqb c Path.slash) eqn:E; [by constructor |].
  pose proof (split_nonempty Path.slash s).
  destruct (Path.split Path.slash s) as [| seg segs]; [done |].
  apply Forall_cons in IH as [H1 H2]. constructor; [| done].
  cbn [Fs.hasSlash]. by rewrite E, H1.
Qed.

Lemma split_join (segs : list string) :
  segs <> [] -> Forall (fun seg => Fs.hasSlash seg = false) segs ->
  Path.split Path.slash (Js.join "/" segs) = segs.
Proof.
  induction segs as [| seg rest IH]; [done |]. intros _ H.
  apply Forall_cons in H as [H1 H2].
  destruct rest as [| seg' rest]; [by apply split_plain |].
  change (Js.join "/" (seg :: seg' :: rest))
    with (seg +:+ "/" +:+ Js.join "/" (seg' :: rest)).
  rewrite split_app, split_plain by done. rewrite IH; done.
Qed.

Lemma join_snoc (segs : list string) (seg : string) :
  segs <> [] -> Js.join "/" (segs ++ [seg]) = Js.join "/" segs +:+ "/" +:+ seg.
Proof.
  induction segs as [| s rest IH]; [done |]. intros _.
  destruct rest as [| s' rest]; [reflexivity |].
  change (Js.join "/" ((s :: s' :: rest) ++ [seg]))
    with (s +:+ "/" +:+ Js.join "/" ((s' :: rest) ++ [seg])).
  rewrite IH by done.
  change (Js.join "/" (s :: s' :: rest)) with (s +:+ "/" +:+ Js.join "/" (s' :: rest)).
  by rewrite !app_assoc_str.
Qed.

Lemma endsWithSlash_app (a b : string) :
  b <> "" -> Path.endsWithSlash (a +:+ b) = Path.endsWithSlash b.
Proof.
  intros Hb. induction a as [| c a IH]; [reflexivity |].
  cbn [String.append Path.endsWithSlash]. rewrite IH.
  destruct (a +:+ b) eqn:E; [| reflexivity].
  destruct a; [simpl in E; congruence | discriminate].
Qed.

Lemma startsWithSlash_app (a b : string) :
  a <> "" -> Path.startsWithSlash (a +:+ b) = Path.startsWithSlash a.
Proof. by destruct a. Qed.

Lemma normalizeSegment_plain (allow : bool) (stack : list string) (seg : string) :
  isPlain seg = true -> Path.normalizeSegment allow stack seg = seg :: stack.
Proof.
  unfold isPlain, Path.normalizeSegment. intros H.
  apply negb_true_iff in H.
  destruct (String.eqb seg "" || String.eqb seg ".") eqn:E; [done |].
  simpl in H. by rewrite H.
Qed.

Lemma canon_step (allow : bool) (stack : list string) (seg : string) :
  canon allow stack -> canon allow (Path.normalizeSegment allow stack seg).
Proof.
  intros C. destruct (isPlain seg) eqn:P.
  { rewrite normalizeSegment_plain by done. by constructor. }
  unfold Path.normalizeSegment.
  destruct (String.eqb seg "" || String.eqb seg ".") eqn:E; [done |].
  unfold isPlain in P. rewrite E in P. simpl in P. apply negb_false_iff in P.
  rewrite P. destruct stack as [| top below].
  - destruct allow eqn:A; [| constructor]. by constructor.
  - destruct (String.eqb top "..") eqn:T.
    + apply String.eqb_eq in T as ->. destruct allow eqn:A; [| done].
      inversion C as [| ? ? D | ? ? Q ?]; subst; [| done].
      constructor; [done |]. by constructor.
    + inversion C as [| ? ? D | ? ? Q ?]; subst; [| done]. done.
Qed.

Lemma dots_stable (dots : list string) :
  Forall (fun seg => seg = "..") dots ->
  fold_left (Path.normalizeSegment true) (rev dots) [] = dots.
Proof.
  induction 1 as [| top rest -> D IH]; [reflexivity |].
  cbn [rev]. rewrite fold_left_app. cbn [fold_left]. rewrite IH.
  destruct D as [| top' rest' -> D]; reflexivity.
Qed.

Lemma canon_stable (allow : bool) (stack : list string) :
  canon allow stack -> fold_left (Path.normalizeSegment allow) (rev stack) [] = stack.
Proof.
  induction 1 as [| below A D | seg below P C IH]; [reflexivity | |].
  - subst allow. apply dots_stable. by constructor.
  - cbn [rev]. rewrite fold_left_app. cbn [fold_left]. rewrite IH.
    by apply normalizeSegment_plain.
Qed.

Lemma fold_canon (allow : bool) (segs stack : list string) :
  canon allow stack -> canon allow (fold_left (Path.normalizeSegment allow) segs stack).
Proof.
  revert stack. induction segs as [| seg segs IH]; [done |].
  intros stack C. cbn [fold_left]. by apply IH, canon_step.
Qed.

Lemma normalizeSegment_noslash (allow : bool) (stack : list string) (seg : string) :
  Fs.hasSlash seg = false ->
  Forall (fun s => Fs.hasSlash s = false) stack ->
  Forall (fun s => Fs.hasSlash s = false) (Path.normalizeSegment allow stack seg).
Proof.
  intros Hs H. unfold Path.normalizeSegment.
  repeat case_match; try done; try (by constructor);
    try (by apply Forall_cons in H as [_ H]).
Qed.

Lemma fold_noslash (allow : bool) (segs stack : list string) :
  Forall (fun s => Fs.hasSlash s = false) segs ->
  Forall (fun s => Fs.hasSlash s = false) stack ->
  Forall (fun s => Fs.hasSlash s = false)
         (fold_left (Path.normalizeSegment allow) segs stack).
Proof.
  revert stack. induction segs as [| seg segs IH]; [done |].
  intros stack Hs H. apply Forall_cons in Hs as [H1 H2].
  cbn [fold_left]. by apply IH, normalizeSegment_noslash.
Qed.

Lemma join_nonempty (segs : list string) :
  segs <> [] -> Forall (fun seg => seg <> "") segs -> Js.join "/" segs <> "".
Proof.
  destruct segs as [| seg rest]; [done |]. intros _ H.
  apply Forall_cons in H as [H _]. rewrite join_cons.
  destruct seg; [done | discriminate].
Qed.

Lemma canon_nonempty (allow : bool) (stack : list string) :
  canon allow stack -> Forall (fun seg => seg <> "") stack.
Proof.
  induction 1 as [| below A D | seg below P C IH].
  - constructor.
  - constructor; [done |]. eapply Forall_impl; [exact D |]. by intros ? ->.
  - constructor; [| done]. by intros ->.
Qed.


Lemma join_app (l1 l2 : list string) :
  l1 <> [] -> l2 <> [] ->
  Js.join "/" (l1 ++ l2) = Js.join "/" l1 +:+ "/" +:+ Js.join "/" l2.
Proof.
  induction l1 as [| s rest IH]; [done |]. intros _ H2.
  destruct rest as [| s' rest].
  - destruct l2; [done | reflexivity].
  - change (Js.join "/" ((s :: s' :: rest) ++ l2))
      with (s +:+ "/" +:+ Js.join "/" ((s' :: rest) ++ l2)).
    rewrite IH by done.
    change (Js.join "/" (s :: s' :: rest)) with (s +:+ "/" +:+ Js.join "/" (s' :: rest)).
    by rewrite !app_assoc_str.
Qed.

Lemma startsWithSlash_noslash (seg rest : string) :
  seg <> "" -> Fs.hasSlash seg = false -> Path.startsWithSlash (seg +:+ rest) = false.
Proof.
  destruct seg as [| c seg]; [done |]. intros _ H. cbn in *.
  by apply orb_false_elim in H as [-> _].
Qed.

Lemma normalizeString_stack (p : string) (allow : bool) :
  Path.normalizeString p allow
  = Js.join "/" (rev (fold_left (Path.normalizeSegment allow) (Path.split Path.slash p) [])).
Proof. reflexivity. Qed.

Lemma rev_nonempty {A : Type} (l : list A) : l <> [] -> rev l <> [].
Proof. destruct l; [done |]. intros _ E. by apply app_eq_nil in E as [_ ?]. Qed.

Lemma stack_join_nonempty (allow : bool) (stack : list string) :
  stack <> [] -> canon allow stack -> Js.join "/" (rev stack) <> "".
Proof.
  intros N C. apply join_nonempty; [by apply rev_nonempty |].
  apply Forall_rev. by eapply canon_nonempty.
Qed.

(** A path without a separator at its end, of which normalization keeps a
    segment, is normalized to a normal form. *)
Lemma normalize_shape (p : string) :
  let absolute := Path.startsWithSlash p in
  let stack := fold_left (Path.normalizeSegment (negb absolute)) (Path.split Path.slash p) [] in
  p <> "" -> Path.endsWithSlash p = false -> stack <> [] ->
  Path.normalize p = (if absolute then "/" else "") +:+ Js.join "/" (rev stack)
  /\ normalForm (Path.normalize p).
Proof.
  intros absolute stack Np Ep Ns.
  assert (C : canon (negb absolute) stack) by (apply fold_canon; constructor).
  assert (E : Path.normalize p = (if absolute then "/" else "") +:+ Js.join "/" (rev stack)).
  { unfold Path.normalize. apply String.eqb_neq in Np. rewrite Np, Ep.
    fold absolute. rewrite normalizeString_stack. fold stack.
    pose proof (stack_join_nonempty _ _ Ns C) as Nj.
    apply String.eqb_neq in Nj. rewrite Nj. by destruct absolute. }
  split; [exact E |]. rewrite E. exists absolute, stack.
  repeat split; try done.
  apply fold_noslash; [apply split_noslash | constructor].
Qed.

(** Joining a kept segment to a normal form appends it. *)
Lemma join_child (root seg : string) :
  normalForm root -> isPlain seg = true -> Fs.hasSlash seg = false ->
  Path.endsWithSlash seg = false ->
  Path.join [JsString root; JsString seg] = Normal (root +:+ "/" +:+ seg).
Proof.
  intros (absolute & stack & Ns & C & Hs & ->) P S T.
  set (J := Js.join "/" (rev stack)).
  assert (NJ : J <> "") by by eapply stack_join_nonempty.
  assert (Nseg : seg <> "") by (by intros ->).
  set (root := (if absolute then "/" else "") +:+ J).
  assert (Nroot : root <> "").
  { subst root. destruct absolute; simpl; [discriminate | done]. }
  unfold Path.join. cbn [Path.validateAll Path.validateString mbind completion_bind
    List.filter].
  pose proof (proj2 (String.eqb_neq _ _) Nroot) as Er.
  pose proof (proj2 (String.eqb_neq _ _) Nseg) as Es.
  rewrite Er, Es. cbn [negb].
  change (Js.join "/" [root; seg]) with (root +:+ "/" +:+ seg). f_equal.
  assert (A : Path.startsWithSlash (root +:+ "/" +:+ seg) = absolute).
  { rewrite startsWithSlash_app by done. subst root. destruct absolute; [done |].
    cbn [String.append]. subst J.
    pose proof (rev_nonempty _ Ns) as Nr.
    assert (F : Forall (fun s => s <> "" /\ Fs.hasSlash s = false) (rev stack)).
    { apply Forall_rev, Forall_and. split; [by eapply canon_nonempty | done]. }
    destruct (rev stack) as [| bottom more]; [done |].
    apply Forall_cons in F as [[F1 F2] _]. rewrite join_cons.
    by apply startsWithSlash_noslash. }
  assert (Sp : Path.split Path.slash root
               = (if absolute then [""] else []) ++ rev stack).
  { subst root J. destruct absolute.
    - change ("/" +:+ Js.join "/" (rev stack)) with ("" +:+ "/" +:+ Js.join "/" (rev stack)).
      rewrite split_app. cbn [Path.split app]. f_equal.
      apply split_join; [by apply rev_nonempty | by apply Forall_rev].
    - cbn [String.append app].
      apply split_join; [by apply rev_nonempty | by apply Forall_rev]. }
  assert (St : fold_left (Path.normalizeSegment (negb absolute))
                 (Path.split Path.slash (root +:+ "/" +:+ seg)) [] = seg :: stack).
  { rewrite split_app, fold_left_app, Sp, split_plain by done.
    rewrite fold_left_app.
    assert (fold_left (Path.normalizeSegment (negb absolute))
              (if absolute then [""] else []) [] = []) as -> by by destruct absolute.
    rewrite canon_stable by done. cbn [fold_left]. by apply normalizeSegment_plain. }
  unfold Path.normalize.
  assert (String.eqb (root +:+ "/" +:+ seg) "" = false) as ->.
  { apply String.eqb_neq. destruct root; [done | discriminate]. }
  rewrite A, normalizeString_stack, St. cbn [rev].
  rewrite join_snoc by by apply rev_nonempty. fold J.
  assert (String.eqb (J +:+ "/" +:+ seg) "" = false) as ->.
  { apply String.eqb_neq. destruct J; [done | discriminate]. }
  rewrite endsWithSlash_app by done.
  change ("/" +:+ seg) with (String "/" seg).
  assert (Path.endsWithSlash (String "/" seg) = false) as ->.
  { cbn [Path.endsWithSlash]. by destruct seg. }
  subst root. destruct absolute; [| done].
  by rewrite !app_assoc_str.
Qed.

Lemma hasSlash_app (a b : string) :
  Fs.hasSlash (a +:+ b) = Fs.hasSlash a || Fs.hasSlash b.
Proof.
  induction a as [| c a IH]; [reflexivity |].
  cbn [String.append Fs.hasSlash]. by rewrite IH, orb_assoc.
Qed.

Lemma isPlain_long (s : string) : 3 <= String.length s -> isPlain s = true.
Proof.
  destruct s as [| c1 [| c2 [| c3 s]]]; cbn [String.length]; try lia. intros _.
  unfold isPlain. cbn [String.eqb].
  by destruct (Ascii.eqb c1 "."), (Ascii.eqb c2 ".").
Qed.

Lemma length_append (a b : string) :
  String.length (a +:+ b) = String.length a + String.length b.
Proof. induction a; simpl; congruence. Qed.

Lemma hex_digit_noslash (x : N) :
  Ascii.eqb (hex_digit (N.land x 0xf)) Path.slash = false.
Proof.
  assert (H : (N.land x 0xf < 16)%N).
  { change 0xf%N with (N.ones 4). rewrite N.land_ones. by apply N.mod_lt. }
  destruct (N.land x 0xf) as [| n]; [reflexivity |].
  do 4 (destruct n as [n | n |]; try lia; try reflexivity).
Qed.

Lemma hasSlash_of_list (l : list ascii) :
  Forall (fun c => Ascii.eqb c Path.slash = false) l ->
  Fs.hasSlash (string_of_list_ascii l) = false.
Proof.
  induction 1 as [| c l Hc _ IH]; [reflexivity |].
  cbn [string_of_list_ascii Fs.hasSlash]. by rewrite Hc, IH.
Qed.

Lemma hex_digest_noslash (msg : string) : Fs.hasSlash (Sha256.hex_digest msg) = false.
Proof.
  unfold Sha256.hex_digest. apply hasSlash_of_list.
  apply Forall_flat_map, Forall_forall. intros w _.
  unfold Sha256.hex_word. apply Forall_map, Forall_forall. intros i _.
  apply hex_digit_noslash.
Qed.

(** The name of a cache file is a segment that normalization keeps. *)
Lemma zip_name_plain (key : string) :
  Fs.hasSlash key = false ->
  isPlain (key +:+ ".zip") = true /\ Fs.hasSlash (key +:+ ".zip") = false
  /\ Path.endsWithSlash (key +:+ ".zip") = false.
Proof.
  intros H. split; [| split].
  - apply isPlain_long. rewrite length_append. simpl. lia.
  - by rewrite hasSlash_app, H.
  - by rewrite endsWithSlash_app.
Qed.

Lemma normalForm_child (root seg : string) :
  normalForm root -> isPlain seg = true -> Fs.hasSlash seg = false ->
  normalForm (root +:+ "/" +:+ seg).
Proof.
  intros (absolute & stack & Ns & C & Hs & ->) P S.
  exists absolute, (seg :: stack). repeat split; [done | by constructor | by constructor |].
  cbn [rev]. rewrite join_snoc by by apply rev_nonempty.
  by rewrite app_assoc_str.
Qed.

Lemma normalForm_nonempty (p : string) : normalForm p -> p <> "".
Proof.
  intros (absolute & stack & Ns & C & Hs & ->).
  pose proof (stack_join_nonempty _ _ Ns C) as N.
  destruct absolute; simpl; [discriminate | done].
Qed.

Lemma validateAll_strings (strs : list string) :
  Path.validateAll (List.map JsString strs) = Normal strs.
Proof. induction strs as [| s rest IH]; [reflexivity |]. simpl. by rewrite IH. Qed.

Lemma filter_plain (segs : list string) :
  Forall (fun seg => isPlain seg = true) segs ->
  List.filter (fun s => negb (String.eqb s "")) segs = segs.
Proof.
  induction 1 as [| seg rest P _ IH]; [reflexivity |].
  cbn [List.filter]. rewrite IH. by destruct seg.
Qed.

Lemma fold_plain (allow : bool) (segs stack : list string) :
  Forall (fun seg => isPlain seg = true) segs ->
  fold_left (Path.normalizeSegment allow) segs stack = rev segs ++ stack.
Proof.
  intros H. revert stack. induction H as [| seg rest P _ IH]; [reflexivity |].
  intros stack. cbn [fold_left rev]. rewrite normalizeSegment_plain, IH by done.
  by rewrite <- app_assoc.
Qed.

(** Joining kept segments below a directory: the result ends with them and
    is a normal form. *)
Lemma join_below (dir : string) (segs : list string) :
  dir <> "" -> segs <> [] ->
  Forall (fun seg => isPlain seg = true) segs ->
  Forall (fun seg => Fs.hasSlash seg = false) segs ->
  Path.endsWithSlash (Js.join "/" segs) = false ->
  exists pre,
    Path.join (JsString dir :: List.map JsString segs) = Normal (pre +:+ Js.join "/" segs)
    /\ normalForm (pre +:+ Js.join "/" segs).
Proof.
  intros Nd Ns P S T. unfold Path.join.
  change (JsString dir :: List.map JsString segs) with (List.map JsString (dir :: segs)).
  rewrite validateAll_strings. cbn [mbind completion_bind List.filter].
  pose proof (proj2 (String.eqb_neq _ _) Nd) as ->. cbn [negb].
  rewrite filter_plain by done.
  set (p := Js.join "/" (dir :: segs)).
  assert (Ep : p = dir +:+ "/" +:+ Js.join "/" segs).
  { subst p. rewrite join_cons. by destruct segs. }
  assert (Nj : Js.join "/" segs <> "").
  { apply join_nonempty; [done |]. eapply Forall_impl; [exact P |]. by intros ? ? ->. }
  set (absolute := Path.startsWithSlash p).
  set (base := fold_left (Path.normalizeSegment (negb absolute))
                 (Path.split Path.slash dir) []).
  assert (St : fold_left (Path.normalizeSegment (negb absolute)) (Path.split Path.slash p) []
               = rev segs ++ base).
  { rewrite Ep, split_app, fold_left_app, split_join by done. by apply fold_plain. }
  destruct (normalize_shape p) as [E NF].
  - rewrite Ep. destruct dir; [done | discriminate].
  - rewrite Ep, endsWithSlash_app; [| by destruct (Js.join "/" segs)].
    change ("/" +:+ Js.join "/" segs) with (String "/" (Js.join "/" segs)).
    cbn [Path.endsWithSlash]. by destruct (Js.join "/" segs).
  - fold absolute. rewrite St. intros E. apply app_eq_nil in E as [E _].
    by apply (rev_nonempty _ Ns).
  - fold absolute in E. rewrite St in E.
    exists ((if absolute then "/" else "")
            +:+ match rev base with [] => "" | l => Js.join "/" l +:+ "/" end).
    assert (Er : Path.normalize p
                 = ((if absolute then "/" else "")
                    +:+ match rev base with [] => "" | l => Js.join "/" l +:+ "/" end)
                   +:+ Js.join "/" segs).
    { rewrite E, rev_app_distr, rev_involutive.
      destruct (rev base) as [| b0 more] eqn:R.
      - cbn [app]. by rewrite app_assoc_str.
      - rewrite join_app by done. by rewrite !app_assoc_str. }
    destruct segs as [| s0 srest]; [done |].
    rewrite <- Er. split; [reflexivity | exact NF].
Qed.

Lemma join_literal (root : string) (segs : list string) :
  normalForm root -> segs <> [] ->
  Forall (fun seg => isPlain seg = true) segs ->
  Forall (fun seg => Fs.hasSlash seg = false) segs ->
  Path.endsWithSlash (Js.join "/" segs) = false ->
  Path.join (JsString root :: List.map JsString segs)
  = Normal (root +:+ "/" +:+ Js.join "/" segs)
  /\ normalForm (root +:+ "/" +:+ Js.join "/" segs).
Proof.
  intros NF Ns P S T.
  destruct (join_below root segs (normalForm_nonempty _ NF) Ns P S T) as (pre & E & NF').
  assert (NFl : normalForm (root +:+ "/" +:+ Js.join "/" segs)).
  { clear E NF' T pre. revert root NF.
    induction segs as [| seg rest IH]; [done |]. intros root NF.
    apply Forall_cons in P as [P1 P2]. apply Forall_cons in S as [S1 S2].
    destruct rest as [| seg' rest]; [by apply normalForm_child |].
    change (Js.join "/" (seg :: seg' :: rest))
      with (seg +:+ "/" +:+ Js.join "/" (seg' :: rest)).
    assert (Ea : (root +:+ "/" +:+ seg) +:+ "/" +:+ Js.join "/" (seg' :: rest)
                 = root +:+ "/" +:+ seg +:+ "/" +:+ Js.join "/" (seg' :: rest))
      by (by rewrite !app_assoc_str).
    rewrite <- Ea. apply IH; try done. by apply normalForm_child. }
  split; [| exact NFl].
  (* both are normal forms of the same path *)
  destruct NFl as (absolute & stack & Nst & C & Hs & El).
  revert E. unfold Path.join.
  change (JsString root :: List.map JsString segs) with (List.map JsString (root :: segs)).
  rewrite validateAll_strings. cbn [mbind completion_bind List.filter].
  pose proof (proj2 (String.eqb_neq _ _) (normalForm_nonempty _ NF)) as ->. cbn [negb].
  rewrite filter_plain by done. intros _. f_equal.
  assert (Ep : Js.join "/" (root :: segs) = root +:+ "/" +:+ Js.join "/" segs).
  { rewrite join_cons. by destruct segs. }
  rewrite Ep.
  set (p := root +:+ "/" +:+ Js.join "/" segs) in *.
  assert (Np : p <> "") by (subst p; destruct root; [by destruct NF as (? & ? & ? & ? & ? & ?) | discriminate]).
  assert (A : Path.startsWithSlash p = absolute).
  { rewrite El. destruct absolute; [done |]. cbn [String.append].
    assert (F : Forall (fun s => s <> "" /\ Fs.hasSlash s = false) (rev stack)).
    { apply Forall_rev, Forall_and. split; [by eapply canon_nonempty | done]. }
    pose proof (rev_nonempty _ Nst).
    destruct (rev stack) as [| bottom more]; [done |].
    apply Forall_cons in F as [[F1 F2] _]. rewrite join_cons.
    by apply startsWithSlash_noslash. }
  assert (Sp : Path.split Path.slash p = (if absolute then [""] else []) ++ rev stack).
  { rewrite El. destruct absolute.
    - change ("/" +:+ Js.join "/" (rev stack)) with ("" +:+ "/" +:+ Js.join "/" (rev stack)).
      rewrite split_app. cbn [Path.split app]. f_equal.
      apply split_join; [by apply rev_nonempty | by apply Forall_rev].
    - cbn [String.append app].
      apply split_join; [by apply rev_nonempty | by apply Forall_rev]. }
  unfold Path.normalize.
  pose proof (proj2 (String.eqb_neq _ _) Np) as ->.
  rewrite A, normalizeString_stack, Sp, fold_left_app.
  assert (fold_left (Path.normalizeSegment (negb absolute))
            (if absolute then [""] else []) [] = []) as -> by by destruct absolute.
  rewrite canon_stable by done.
  pose proof (stack_join_nonempty _ _ Nst C) as Nj.
  pose proof (proj2 (String.eqb_neq _ _) Nj) as ->.
  assert (Path.endsWithSlash p = false) as ->.
  { assert (Ng : Js.join "/" segs <> "").
    { apply join_nonempty; [done |]. eapply Forall_impl; [exact P |]. by intros ? ? ->. }
    subst p. rewrite endsWithSlash_app; [| by destruct (Js.join "/" segs)].
    change ("/" +:+ Js.join "/" segs) with (String "/" (Js.join "/" segs)).
    cbn [Path.endsWithSlash]. by destruct (Js.join "/" segs). }
  rewrite El. by destruct absolute.
Qed.

(** [locateAppDir] below the directory it has decided on. *)
Lemma locateAppDir_below (dir : string) (w : World) :
  dir <> "" ->
  exists root pre,
    (dir' ← lift (Path.join (JsString dir :: List.map JsString cacheSegments));
     _ ← log (LogDebug ("Setting builds cache path to " +:+ dir'));
     mret dir') w
    = (Normal root, logLine (LogDebug ("Setting builds cache path to " +:+ root)) w)
    /\ root = pre +:+ "api-console/cache/builds"
    /\ normalForm root
    /\ (normalForm dir -> root = dir +:+ "/api-console/cache/builds").
Proof.
  intros Nd.
  destruct (join_below dir cacheSegments) as (pre & E & NF); try done.
  { by repeat constructor. } { by repeat constructor. }
  exists (pre +:+ "api-console/cache/builds"), pre.
  split; [| split; [reflexivity | split; [exact NF |]]].
  - unfold mbind, M_bind, lift. by rewrite E.
  - intros NFd. destruct (join_literal dir cacheSegments) as [E' _]; try done.
    { by repeat constructor. } { by repeat constructor. }
    rewrite E in E'. by injection E'.
Qed.

Lemma baseDir_spec (process : Process) (platform : string) :
  match specBase process platform with
  | Some base =>
      exists dir, baseDir process platform = Normal dir /\ dir <> ""
                  /\ (normalDirs process -> dir = base /\ normalForm dir)
  | None => exists e, baseDir process platform = Throw e /\ errName e = "TypeError"
  end.
Proof.
  unfold baseDir, specBase, envVar.
  destruct (env process !! "APPDATA") as [[| c appdata] |] eqn:EA.
  2: { cbn [isUndefined ToBoolean negb andb String.eqb ToString].
       eexists. split; [reflexivity |]. split; [done |].
       intros [NA _]. split; [done |]. by apply NA. }
  all: cbn [isUndefined ToBoolean negb andb String.eqb].
  all: destruct (String.eqb platform "darwin");
    [| destruct (String.eqb platform "linux")].
  all: try (eexists; split; [reflexivity |]; split; [done |]; intros _;
            split; [done |]; exists true, ["local"; "var"];
            repeat split; [done | by repeat constructor | by repeat constructor]).
  all: destruct (env process !! "HOME") as [home |] eqn:EH;
    [| eexists; split; reflexivity].
  all: cbn [mbind option_bind].
  all: destruct (decide (home = "")) as [-> | Nh];
    [ eexists; split; [reflexivity |]; split; [done |];
      intros [_ NH]; by destruct (normalForm_nonempty _ (NH _ EH)) |].
  1,3: destruct (join_below home ["Library"; "Preferences"]) as (pre & E & NF);
      [done | done | by repeat constructor | by repeat constructor | done |].
  1,2: eexists; (split; [exact E |]); (split; [by apply normalForm_nonempty |]);
    intros [_ NH];
    destruct (join_literal home ["Library"; "Preferences"] (NH _ EH)) as [E' NF'];
      [done | by repeat constructor | by repeat constructor | done |];
    rewrite E in E'; injection E' as E'; split; [exact E' | exact NF].
  all: destruct (join_below home [".config"]) as (pre & E & NF);
      [done | done | by repeat constructor | by repeat constructor | done |].
  all: eexists; (split; [exact E |]); (split; [by apply normalForm_nonempty |]);
    intros [_ NH];
    destruct (join_literal home [".config"] (NH _ EH)) as [E' NF'];
      [done | by repeat constructor | by repeat constructor | done |];
    rewrite E in E'; injection E' as E'; split; [exact E' | exact NF].
Qed.

(** What [locateAppDir] returns, and when it throws. *)
Lemma locateAppDir_shape (process : Process) (platformArg : option string) (w : World) :
  match specBase process (effectivePlatform process platformArg) with
  | Some base =>
      exists root pre,
        locateAppDir process platformArg w
        = (Normal root, logLine (LogDebug ("Setting builds cache path to " +:+ root)) w)
        /\ root = pre +:+ "api-console/cache/builds"
        /\ normalForm root
        /\ (normalDirs process -> root = base +:+ "/api-console/cache/builds")
  | None =>
      exists e,
        locateAppDir process platformArg w = (Throw e, w) /\ errName e = "TypeError"
  end.
Proof.
  unfold locateAppDir. fold (effectivePlatform process platformArg).
  pose proof (baseDir_spec process (effectivePlatform process platformArg)) as B.
  destruct (specBase process (effectivePlatform process platformArg)) as [base |].
  - destruct B as (dir & E & Nd & L).
    destruct (locateAppDir_below dir w Nd) as (root & pre & E2 & Es & NF & El).
    exists root, pre. split; [| split; [exact Es | split; [exact NF |]]].
    + unfold mbind at 1. unfold M_bind at 1. unfold lift at 1. rewrite E. exact E2.
    + intros N. destruct (L N) as [<- NFd]. by apply El.
  - destruct B as (e & E & Ee). exists e. split; [| exact Ee].
    unfold mbind at 1. unfold M_bind at 1. unfold lift at 1. by rewrite E.
Qed.

(** *** One [path.join] for two *)

Lemma normalize_render (p : string) :
  p <> "" ->
  Path.normalize p
  = render (Path.startsWithSlash p) (Path.endsWithSlash p)
      (fold_left (Path.normalizeSegment (negb (Path.startsWithSlash p)))
                 (Path.split Path.slash p) []).
Proof.
  intros N. unfold Path.normalize, render.
  by rewrite (proj2 (String.eqb_neq _ _) N), normalizeString_stack.
Qed.

Lemma render_split (absolute trailing : bool) (stack : list string) :
  canon (negb absolute) stack ->
  Forall (fun seg => Fs.hasSlash seg = false) stack ->
  Path.startsWithSlash (render absolute trailing stack) = absolute
  /\ render absolute trailing stack <> ""
  /\ fold_left (Path.normalizeSegment (negb absolute))
               (Path.split Path.slash (render absolute trailing stack)) [] = stack.
Proof.
  intros C S. unfold render.
  destruct stack as [| top below].
  { cbn. by destruct absolute, trailing. }
  set (stack := top :: below) in *.
  assert (Ns : stack <> []) by done.
  pose proof (stack_join_nonempty _ _ Ns C) as Nj.
  rewrite (proj2 (String.eqb_neq _ _) Nj).
  set (q := Js.join "/" (rev stack)) in *.
  assert (Sq : Path.split Path.slash q = rev stack)
    by (apply split_join; [by apply rev_nonempty | by apply Forall_rev]).
  assert (Aq : forall rest, Path.startsWithSlash (q +:+ rest) = false).
  { intros rest. subst q.
    assert (F : Forall (fun s => s <> "" /\ Fs.hasSlash s = false) (rev stack)).
    { apply Forall_rev, Forall_and. split; [by eapply canon_nonempty | done]. }
    pose proof (rev_nonempty _ Ns) as Nr.
    destruct (rev stack) as [| bottom more]; [done |].
    apply Forall_cons in F as [[F1 F2] _]. rewrite join_cons.
    rewrite app_assoc_str. by apply startsWithSlash_noslash. }
  assert (Sq' : Path.split Path.slash (q +:+ "/") = rev stack ++ [""]).
  { change (q +:+ "/") with (q +:+ "/" +:+ ""). by rewrite split_app, Sq. }
  assert (Fq : forall allow, canon allow stack ->
                 fold_left (Path.normalizeSegment allow) (rev stack) [] = stack)
    by (intros; by apply canon_stable).
  destruct absolute, trailing; cbn [negb] in *.
  - split; [done |]. split; [done |].
    change ("/" +:+ (q +:+ "/")) with ("" +:+ "/" +:+ (q +:+ "/")).
    rewrite split_app, Sq'. cbn [Path.split app fold_left].
    rewrite fold_left_app, Fq by done. reflexivity.
  - split; [done |]. split; [done |].
    change ("/" +:+ q) with ("" +:+ "/" +:+ q).
    rewrite split_app, Sq. cbn [Path.split app fold_left].
    by rewrite Fq.
  - split; [apply Aq |]. split; [by destruct q |].
    rewrite Sq', fold_left_app, Fq by done. reflexivity.
  - split; [by rewrite <- (Aq ""), append_nil_r |]. split; [done |].
    by rewrite Sq, Fq.
Qed.

(** Normalizing a path is of no effect on what it is joined into. *)
Lemma normalize_join (a b : string) :
  a <> "" -> b <> "" ->
  Path.normalize (Path.normalize a +:+ "/" +:+ b) = Path.normalize (a +:+ "/" +:+ b).
Proof.
  intros Na Nb.
  set (absolute := Path.startsWithSlash a).
  set (stack := fold_left (Path.normalizeSegment (negb absolute)) (Path.split Path.slash a) []).
  assert (C : canon (negb absolute) stack) by (apply fold_canon; constructor).
  assert (S : Forall (fun seg => Fs.hasSlash seg = false) stack)
    by (apply fold_noslash; [apply split_noslash | constructor]).
  destruct (render_split absolute (Path.endsWithSlash a) stack C S) as (A & N & F).
  rewrite (normalize_render a Na). fold absolute stack.
  set (r := render absolute (Path.endsWithSlash a) stack) in *.
  assert (Nt : "/" +:+ b <> "") by (change ("/" +:+ b) with (String "/" b); discriminate).
  rewrite !normalize_render.
  2: { destruct a; [done | discriminate]. }
  2: { destruct r; [done | discriminate]. }
  rewrite !startsWithSlash_app, A by done. fold absolute.
  rewrite !(endsWithSlash_app _ ("/" +:+ b)) by done.
  rewrite !split_app, !fold_left_app, F. reflexivity.
Qed.

Lemma joined_cons (dir : string) (segs : list string) :
  dir <> "" -> segs <> [] -> Forall (fun seg => seg <> "") segs ->
  Path.join (JsString dir :: List.map JsString segs)
  = Normal (Path.normalize (dir +:+ "/" +:+ Js.join "/" segs)).
Proof.
  intros Nd Ns Ne. unfold Path.join.
  change (JsString dir :: List.map JsString segs) with (List.map JsString (dir :: segs)).
  rewrite validateAll_strings. cbn [mbind completion_bind List.filter].
  rewrite (proj2 (String.eqb_neq _ _) Nd). cbn [negb].
  assert (Fl : List.filter (fun s => negb (String.eqb s "")) segs = segs).
  { clear Ns. induction Ne as [| seg rest N _ IH]; [done |]. cbn [List.filter].
    by rewrite (proj2 (String.eqb_neq _ _) N), IH. }
  rewrite Fl, join_cons. by destruct segs.
Qed.

Lemma filter_app_kept (front segs : list string) :
  Forall (fun seg => seg <> "") segs ->
  List.filter (fun s => negb (String.eqb s "")) (front ++ segs)
  = List.filter (fun s => negb (String.eqb s "")) front ++ segs.
Proof.
  intros Ne. rewrite List.filter_app. f_equal.
  induction Ne as [| seg rest N _ IH]; [done |]. cbn [List.filter].
  by rewrite (proj2 (String.eqb_neq _ _) N), IH.
Qed.

Lemma normalize_nonempty (p : string) : p <> "" -> Path.normalize p <> "".
Proof.
  intros N. rewrite normalize_render by done.
  apply render_split; [apply fold_canon; constructor |].
  apply fold_noslash; [apply split_noslash | constructor].
Qed.

Lemma filter_kept (parts : list string) :
  Forall (fun s => s <> "") (List.filter (fun s => negb (String.eqb s "")) parts).
Proof.
  apply Forall_forall. intros s H. apply list_elem_of_In, filter_In in H as [_ H].
  apply negb_true_iff in H. by apply String.eqb_neq.
Qed.

(** [path.join] of a [path.join] is the [path.join] of all the strings. *)
Lemma join_joined (front segs : list string) :
  List.filter (fun s => negb (String.eqb s "")) front <> [] ->
  segs <> [] -> Forall (fun seg => seg <> "") segs ->
  exists dir, Path.join (List.map JsString front) = Normal dir /\ dir <> ""
    /\ Path.join (JsString dir :: List.map JsString segs) = Normal (joined (front ++ segs)).
Proof.
  intros Nf Ns Ne. unfold joined. rewrite filter_app_kept by done.
  unfold Path.join at 1. rewrite validateAll_strings. cbn [mbind completion_bind].
  assert (Nj : Js.join "/" segs <> "") by by apply join_nonempty.
  pose proof (filter_kept front) as K.
  destruct (List.filter _ front) as [| f0 kept] eqn:Fl; [done |].
  assert (Np : Js.join "/" (f0 :: kept) <> "") by by apply join_nonempty.
  exists (Path.normalize (Js.join "/" (f0 :: kept))).
  split; [done |]. split; [by apply normalize_nonempty |].
  rewrite joined_cons; [| by apply normalize_nonempty | done | done].
  rewrite normalize_join by done.
  rewrite <- join_app by done.
  by destruct ((f0 :: kept) ++ segs) eqn:E.
Qed.

Lemma cacheSegments_kept : Forall (fun seg => seg <> "") cacheSegments.
Proof. by repeat constructor. Qed.

(** The directory [locateAppDir] decides on, joined with the folder of the
    cache, is one [path.join] of the strings it starts from. *)
Lemma baseDir_pieces (process : Process) (platform : string) (pieces : list string) :
  specPieces process platform = Some pieces ->
  exists dir,
    baseDir process platform = Normal dir /\ dir <> ""
    /\ Path.join (JsString dir :: List.map JsString cacheSegments)
       = Normal (joined (pieces ++ cacheSegments)).
Proof.
  unfold specPieces, baseDir, envVar.
  assert (One : forall dir, dir <> "" ->
            Path.join (JsString dir :: List.map JsString cacheSegments)
            = Normal (joined ([dir] ++ cacheSegments))).
  { intros dir Nd. rewrite joined_cons; [| done | done | apply cacheSegments_kept].
    unfold joined. rewrite filter_app_kept by apply cacheSegments_kept.
    cbn [List.filter]. by rewrite (proj2 (String.eqb_neq _ _) Nd). }
  assert (Two : forall front, List.filter (fun s => negb (String.eqb s "")) front <> [] ->
            exists dir, Path.join (List.map JsString front) = Normal dir /\ dir <> ""
              /\ Path.join (JsString dir :: List.map JsString cacheSegments)
                 = Normal (joined (front ++ cacheSegments))).
  { intros front Nf. apply join_joined; [done | done | apply cacheSegments_kept]. }
  destruct (env process !! "APPDATA") as [[| c appdata] |] eqn:EA.
  2: { intros [= <-]. cbn [isUndefined ToBoolean negb andb String.eqb ToString].
       eexists. split; [reflexivity |]. split; [done |]. by apply One. }
  all: cbn [isUndefined ToBoolean negb andb String.eqb].
  all: destruct (String.eqb platform "darwin");
    [| destruct (String.eqb platform "linux")].
  all: try (intros [= <-]; eexists; split; [reflexivity |]; split; [done |]; by apply One).
  all: destruct (env process !! "HOME") as [home |] eqn:EH; [| done].
  all: cbn [mbind option_bind]; intros [= <-].
  all: apply (Two [home; _]) || apply (Two [home; _; _]).
  all: cbn [List.filter]; by destruct (negb (String.eqb home "")).
Qed.

Lemma specPieces_specBase (process : Process) (platform : string) :
  is_Some (specPieces process platform) <-> is_Some (specBase process platform).
Proof.
  unfold specPieces, specBase.
  destruct (env process !! "APPDATA") as [[| c appdata] |]; [| by split; eauto |].
  all: destruct (String.eqb platform "darwin");
    [| destruct (String.eqb platform "linux")]; try (by split; eauto).
  all: destruct (env process !! "HOME"); cbn; split; intros [? ?]; by eauto.
Qed.

Lemma validateAll_throws (args : list JsValue) (e : JsError) :
  Path.validateAll args = Throw e ->
  errName e = "TypeError" /\ errCode e = Some "ERR_INVALID_ARG_TYPE".
Proof.
  induction args as [| a rest IH]; [done |]. cbn [Path.validateAll].
  destruct a; cbn; try (by intros [= <-]).
  destruct (Path.validateAll rest); cbn; [done |]. intros [= <-]. by apply IH.
Qed.

(** [path.join] throws nothing but the error of an argument that is not a
    string. *)
Lemma join_throws (args : list JsValue) (e : JsError) :
  Path.join args = Throw e ->
  errName e = "TypeError" /\ errCode e = Some "ERR_INVALID_ARG_TYPE".
Proof.
  unfold Path.join. destruct (Path.validateAll args) as [strs | e'] eqn:V; cbn.
  - by destruct (List.filter _ strs).
  - intros [= <-]. by eapply validateAll_throws.
Qed.

Lemma baseDir_throws (process : Process) (platform : string) (e : JsError) :
  baseDir process platform = Throw e ->
  errName e = "TypeError" /\ errCode e = Some "ERR_INVALID_ARG_TYPE".
Proof.
  unfold baseDir. repeat case_match; try done; apply join_throws.
Qed.

(** C7, as the code has it on a POSIX host. [locateAppDir] takes APPDATA as
    the base when it is set and not empty, else HOME/Library/Preferences on
    darwin, HOME/.config on linux and /var/local elsewhere, and returns the
    one [path.join] of the strings of the base and of api-console, cache and
    builds: the result ends with api-console/cache/builds, and it is the base
    followed by /api-console/cache/builds when the directories of the
    environment are spelled normalized. When the base needs HOME and HOME is
    not set, it throws the TypeError of [path.join] and logs nothing. *)
Theorem locateAppDir_resolution (process : Process) (platformArg : option string)
    (w : World) :
  posixHost process ->
  match specBase process (effectivePlatform process platformArg) with
  | Some base =>
      exists root pre pieces,
        locateAppDir process platformArg w
        = (Normal root, logLine (LogDebug ("Setting builds cache path to " +:+ root)) w)
        /\ specPieces process (effectivePlatform process platformArg) = Some pieces
        /\ root = joined (pieces ++ cacheSegments)
        /\ root = pre +:+ "api-console/cache/builds"
        /\ (normalDirs process -> root = base +:+ "/api-console/cache/builds")
  | None =>
      exists e,
        locateAppDir process platformArg w = (Throw e, w)
        /\ errName e = "TypeError" /\ errCode e = Some "ERR_INVALID_ARG_TYPE"
  end.
Proof.
  intros _.
  pose proof (locateAppDir_shape process platformArg w) as S.
  pose proof (specPieces_specBase process (effectivePlatform process platformArg)) as PB.
  destruct (specBase process (effectivePlatform process platformArg)) as [base |].
  - destruct S as (root & pre & E & Es & _ & L).
    destruct (proj2 PB) as [pieces Ep]; [by eauto |].
    exists root, pre, pieces. split; [exact E |]. split; [exact Ep |].
    split; [| by split].
    destruct (baseDir_pieces _ _ _ Ep) as (dir & Eb & Nd & Ej).
    revert E. unfold locateAppDir. fold (effectivePlatform process platformArg).
    unfold mbind at 1. unfold M_bind at 1. unfold lift at 1. rewrite Eb.
    unfold mbind at 1. unfold M_bind at 1. unfold lift at 1.
    change [JsString dir; JsString "api-console"; JsString "cache"; JsString "builds"]
      with (JsString dir :: List.map JsString cacheSegments).
    rewrite Ej. cbn. by intros [= <-].
  - destruct S as (e & E & Ee). exists e. split; [exact E |]. split; [exact Ee |].
    revert E. unfold locateAppDir. fold (effectivePlatform process platformArg).
    unfold mbind at 1. unfold M_bind at 1. unfold lift at 1.
    destruct (baseDir process (effectivePlatform process platformArg)) as [dir | e'] eqn:Eb.
    + unfold mbind at 1. unfold M_bind at 1. unfold lift at 1.
      destruct (Path.join _) as [root | e'] eqn:Ej; [done |].
      intros [= <-]. by destruct (join_throws _ _ Ej).
    + intros [= <-]. by destruct (baseDir_throws _ _ _ Eb).
Qed.

(** C7, as it is stated, fails: on darwin, with neither APPDATA nor HOME in
    the environment, [path.join] gets [undefined] and throws; nothing is
    returned and nothing is logged. *)
Lemma locateAppDir_without_home :
  locateAppDir (MkProcess "darwin" ∅) None (MkWorld ∅ [])
  = (Throw (Path.invalidPath JsUndefined), MkWorld ∅ []).
Proof. reflexivity. Qed.

Lemma normalForm_home_user : normalForm "/home/user".
Proof.
  exists true, ["user"; "home"].
  repeat split; [done | by repeat constructor | by repeat constructor].
Qed.

Lemma locateAppDir_resolution_witness :
  let process := MkProcess "linux" (<["HOME" := "/home/user"]> ∅) in
  posixHost process /\ normalDirs process
  /\ fst (locateAppDir process None (MkWorld ∅ []))
     = Normal "/home/user/.config/api-console/cache/builds".
Proof.
  intros process.
  assert (P : posixHost process) by (unfold posixHost; simpl; discriminate).
  assert (N : normalDirs process).
  { split; intros dir H; vm_compute in H; [discriminate |].
    injection H as <-. exact normalForm_home_user. }
  split; [exact P |]. split; [exact N |].
  pose proof (locateAppDir_resolution process None (MkWorld ∅ []) P) as R.
  change (specBase process (effectivePlatform process None))
    with (Some "/home/user/.config") in R.
  destruct R as (root & pre & pieces & E & _ & _ & _ & L).
  rewrite E, (L N). reflexivity.
Defined.

(** ** The store: construction, existence check and the missing guard *)

Lemma constructor_disabled (process : Process) (opts : Options) (w : World) :
  ToBoolean (get opts "noCache") = true ->
  constructor process opts w = (Normal (MkCacheBuild opts JsUndefined JsUndefined), w).
Proof. intros H. unfold constructor. by rewrite H. Qed.

Lemma constructor_enabled (process : Process) (opts : Options) (w w' : World)
    (this : CacheBuild) :
  ToBoolean (get opts "noCache") = false ->
  constructor process opts w = (Normal this, w') ->
  exists root,
    this = MkCacheBuild opts (JsString (createHash opts)) (JsString root)
    /\ normalForm root.
Proof.
  intros H. unfold constructor. rewrite H. cbn [negb].
  unfold mbind at 1. unfold M_bind at 1. unfold log at 1.
  unfold mbind at 1. unfold M_bind at 1.
  pose proof (locateAppDir_shape process None
                (logLine (LogDebug ("Build cache hash is " +:+ createHash opts)) w)) as S.
  destruct (specBase process (effectivePlatform process None)).
  - destruct S as (root & pre & E & _ & NF & _). rewrite E.
    intros [= <- <-]. by exists root.
  - destruct S as (e & E & _). by rewrite E.
Qed.


(** The file of the cache of a store that caches. *)
Lemma cacheFile_enabled (opts : Options) (root : string) :
  normalForm root ->
  cacheFile (MkCacheBuild opts (JsString (createHash opts)) (JsString root))
  = Normal (root +:+ "/" +:+ createHash opts +:+ ".zip").
Proof.
  intros NF. unfold cacheFile. cbn [cacheFolder hash ToString].
  destruct (zip_name_plain (createHash opts)) as (P & S & T);
    [apply hex_digest_noslash |].
  by apply join_child.
Qed.




(** C9. A store made with a truthy [noCache] has neither key nor folder,
    and nothing was computed or logged for them. [restore] has no guard:
    it is rejected with the TypeError of [path.join], before anything is
    logged or read; [hasCache] and [cacheBuild], which test [noCache], answer
    false and do nothing. *)
Theorem restore_unguarded (process : Process) (options : Options) (w0 : World) :
  ToBoolean (get options "noCache") = true ->
  exists this : CacheBuild,
    constructor process options w0 = (Normal this, w0)
    /\ hash this = JsUndefined /\ cacheFolder this = JsUndefined
    /\ forall w : World,
        (forall build, exists e,
            restore this build w = (Rejected e, w) /\ errName e = "TypeError")
        /\ hasCache this w = (Normal false, w)
        /\ (forall sources prim, cacheBuild this sources prim w = (Fulfilled, w)).
Proof.
  intros N. exists (MkCacheBuild options JsUndefined JsUndefined).
  split; [by apply constructor_disabled |]. split; [done |]. split; [done |].
  intros w. split; [| split].
  - intros build. eexists. split; reflexivity.
  - unfold hasCache. cbn [opts]. by rewrite N.
  - intros sources prim. unfold cacheBuild. cbn [opts]. by rewrite N.
Qed.

Lemma restore_unguarded_witness :
  let opts : Options := <["noCache" := JsBool true]> (<["tagName" := JsString "4.0.0"]> ∅) in
  let process := MkProcess "linux" (<["HOME" := "/home/user"]> ∅) in
  ToBoolean (get opts "noCache") = true
  /\ exists this e,
       constructor process opts (MkWorld ∅ []) = (Normal this, MkWorld ∅ [])
       /\ restore this "build" (MkWorld ∅ []) = (Rejected e, MkWorld ∅ []).
Proof.
  intros opts process.
  assert (N : ToBoolean (get opts "noCache") = true) by reflexivity.
  split; [exact N |].
  destruct (restore_unguarded process opts (MkWorld ∅ []) N) as (this & C & _ & _ & R).
  destruct (proj1 (R (MkWorld ∅ [])) "build") as (e & E & _).
  by exists this, e.
Defined.

(** ** Packing: the two classes of failure *)

Lemma deliver_benign (signals : list ArchiverSignal) (o : Outcome) (w : World) :
  Forall (fun sig => exists err, sig = Warning err /\ codeIs err "ENOENT" = true) signals ->
  fst (fold_left deliver signals (o, w)) = o
  /\ fs (snd (fold_left deliver signals (o, w))) = fs w
  /\ logged (snd (fold_left deliver signals (o, w)))
     = logged w ++ omap (fun sig => match sig with
                                    | Warning err => Some (LogWarn err)
                                    | _ => None
                                    end) signals.
Proof.
  intros H. revert w. induction H as [| sig rest (err & -> & B) _ IH]; intros w.
  - cbn. by rewrite app_nil_r.
  - cbn [fold_left deliver]. unfold onWarning. rewrite B. cbn [fst snd].
    destruct (IH (logLine (LogWarn err) w)) as (-> & -> & ->).
    repeat split. cbn [logLine logged omap]. by rewrite <- app_assoc.
Qed.

Lemma deliver_settled (signals : list ArchiverSignal) (o : Outcome) (w : World) :
  o <> Pending -> fst (fold_left deliver signals (o, w)) = o.
Proof.
  revert o w. induction signals as [| sig rest IH]; [done |]. intros o w N.
  cbn [fold_left].
  assert (fst (deliver (o, w) sig) = o) as E.
  { destruct sig; cbn; unfold onWarning, onError, onClose; cbn;
      repeat case_match; by destruct o. }
  destruct (deliver (o, w) sig) as [o' w']. cbn in E. subst o'. by apply IH.
Qed.

(** The listeners of a pack, whatever the archive emits: its warnings with
    the code ENOENT are logged as warnings and leave the promise pending, so
    that the pack is fulfilled when the output closes after them; the first
    other warning, or error, is logged as an error and rejects the promise
    with it, whatever comes later. *)
Lemma pack_failure_classes (benign later : list ArchiverSignal) (w : World) :
  Forall (fun sig => exists err, sig = Warning err /\ codeIs err "ENOENT" = true) benign ->
  (fst (fold_left deliver benign (Pending, w)) = Pending
   /\ logged (snd (fold_left deliver benign (Pending, w)))
      = logged w ++ omap (fun sig => match sig with
                                     | Warning err => Some (LogWarn err)
                                     | _ => None
                                     end) benign)
  /\ (forall pointer,
        fst (fold_left deliver (benign ++ OutputClosed pointer :: later) (Pending, w))
        = Fulfilled)
  /\ (forall err, codeIs err "ENOENT" = false ->
        fst (fold_left deliver (benign ++ Warning err :: later) (Pending, w)) = Rejected err
        /\ LogError err
           ∈ logged (snd (fold_left deliver (benign ++ [Warning err]) (Pending, w))))
  /\ (forall err,
        fst (fold_left deliver (benign ++ ArchiverError err :: later) (Pending, w))
        = Rejected err
        /\ LogError err
           ∈ logged (snd (fold_left deliver (benign ++ [ArchiverError err]) (Pending, w)))).
Proof.
  intros B. destruct (deliver_benign benign Pending w B) as (Eo & _ & El).
  split; [by split |].
  assert (D : forall sig, fold_left deliver (benign ++ [sig]) (Pending, w)
                          = deliver (Pending, snd (fold_left deliver benign (Pending, w))) sig).
  { intros sig. rewrite fold_left_app. cbn [fold_left].
    destruct (fold_left deliver benign (Pending, w)) as [o w']. cbn in Eo. by subst o. }
  assert (S : forall sig o, o <> Pending ->
                fst (deliver (Pending, snd (fold_left deliver benign (Pending, w))) sig) = o ->
                fst (fold_left deliver (benign ++ sig :: later) (Pending, w)) = o).
  { intros sig o N E.
    change (sig :: later) with ([sig] ++ later).
    rewrite app_assoc, fold_left_app, D.
    destruct (deliver _ sig) as [o' w']. cbn in E. subst o'. by apply deliver_settled. }
  split; [| split].
  - intros pointer. by apply S.
  - intros err N. split.
    + apply S; [done |]. cbn. unfold onWarning. by rewrite N.
    + rewrite D. cbn. unfold onWarning. rewrite N. cbn. set_solver.
  - intros err. split.
    + by apply S.
    + rewrite D. cbn. set_solver.
Qed.

Lemma join_strings (strs : list string) :
  exists p, Path.join (List.map JsString strs) = Normal p.
Proof.
  unfold Path.join. rewrite validateAll_strings. cbn [mbind completion_bind].
  destruct (List.filter _ strs); eauto.
Qed.

Lemma enqueue_normal (sources : string) (dirEnt : string * Fs.Kind) :
  exists lines items, enqueue sources dirEnt = Normal (lines, items).
Proof.
  unfold enqueue. destruct dirEnt as [name kind]. cbn [fst snd].
  destruct (join_strings [sources; name]) as (p & E). cbn [List.map] in E.
  destruct kind; rewrite ?E; cbn; eauto.
Qed.

Lemma enqueueAll_normal (sources : string) (files : list (string * Fs.Kind)) (w : World) :
  exists queue w', enqueueAll sources files w = (Normal queue, w').
Proof.
  revert w. induction files as [| dirEnt rest IH]; intros w; [cbn; eauto |].
  cbn [enqueueAll]. destruct (enqueue_normal sources dirEnt) as (lines & items & ->).
  destruct (IH (fold_left (fun w l => logLine l w) lines w)) as (more & w' & ->). eauto.
Qed.

(** A pack in which a.txt has gone when the archive comes to it: the
    warning is logged and the pack is fulfilled, without the file. *)
Example pack_with_vanished_file :
  let result := _createPackage packStore "/work/dist" (failingOn "ENOENT") packWorld in
  fst result = Fulfilled
  /\ fs (snd result) !! "/cache/k.zip" = Some (File (Zip [("b.txt", inr (Bytes "B"))]))
  /\ LogWarn (fsError "ENOENT" "/work/dist/a.txt") ∈ logged (snd result).
Proof.
  split; [vm_compute; reflexivity |]. split; [vm_compute; reflexivity |].
  vm_compute. do 2 right. left.
Qed.

(** The same with a file that may not be read: the warning is logged as an
    error and the pack is rejected with it. *)
Example pack_with_denied_file :
  let result := _createPackage packStore "/work/dist" (failingOn "EACCES") packWorld in
  fst result = Rejected (fsError "EACCES" "/work/dist/a.txt")
  /\ LogError (fsError "EACCES" "/work/dist/a.txt") ∈ logged (snd result).
Proof.
  split; [vm_compute; reflexivity |]. vm_compute. do 2 right. left.
Qed.

(** A pack is the delivery of what the archive and its output emit, unless
    it fails before the archive starts. *)
Lemma createPackage_delivers (this : CacheBuild) (sources : string) (prim : Primitive)
    (w : World) :
  (exists e w', _createPackage this sources prim w = (Rejected e, w')
                /\ (cacheFile this = Throw e
                    \/ Fs.readdirSync (fs w) sources = Throw e))
  \/ (exists signals w',
        _createPackage this sources prim w = fold_left deliver signals (Pending, w')).
Proof.
  unfold _createPackage.
  destruct (cacheFile this) as [dest | e]; [| left; eauto].
  destruct (Fs.readdirSync (fs w) sources) as [files | e].
  2: { left. destruct (Fs.openWrite _ dest); eauto. }
  destruct (enqueueAll_normal sources files w) as (queue & w1 & ->).
  right.
  destruct (Fs.openWrite (fs w1) dest) as [fs' | e];
    destruct (gather _) as [signals entries]; [| eauto].
  destruct (fatal prim); eauto.
Qed.

(** *** What the archive emits in [_createPackage] *)

Lemma deliver_fs (signals : list ArchiverSignal) (st : Outcome * World) :
  fs (snd (fold_left deliver signals st)) = fs (snd st).
Proof.
  revert st. induction signals as [| sig rest IH]; intros st; [done |].
  cbn [fold_left]. rewrite IH.
  destruct sig; cbn; unfold onWarning; by repeat case_match.
Qed.

Ltac in_log :=
  cbn [logged logLine fst snd] in *;
  repeat first
    [ assumption
    | apply list_elem_of_here
    | apply elem_of_app; right; apply list_elem_of_here
    | apply elem_of_app; left ].

Lemma deliver_logged (signals : list ArchiverSignal) (st : Outcome * World) (l : LogEntry) :
  l ∈ logged (snd st) -> l ∈ logged (snd (fold_left deliver signals st)).
Proof.
  revert st. induction signals as [| sig rest IH]; intros st H; [done |].
  cbn [fold_left]. apply IH.
  destruct sig; cbn [deliver]; unfold onWarning, onError, onClose;
    repeat case_match; by in_log.
Qed.

Lemma append_warned (prim : Primitive) (fs : FileSystem) (filepath name : string) :
  Forall (warned prim) (fst (append prim fs filepath name)).
Proof.
  unfold append. destruct (lstatError prim filepath) as [err |] eqn:L.
  - repeat constructor. exists err. split; [done |]. right. by exists filepath.
  - destruct (fs !! filepath) as [[data |] |]; cbn; repeat constructor.
    eexists. split; [done |]. by left.
Qed.

Lemma archive_warned (prim : Primitive) (fs : FileSystem) (queue : list Queued) :
  Forall (warned prim) (fst (gather (List.map (archiveItem prim fs) queue))).
Proof.
  unfold gather. cbn [fst]. induction queue as [| item queue IH]; [by constructor |].
  cbn [List.map flat_map]. apply Forall_app. split; [| exact IH].
  destruct item as [filepath name | dirpath destpath]; cbn [archiveItem];
    [apply append_warned |].
  unfold gather. cbn [fst]. rewrite flat_map_app. apply Forall_app. split.
  - destruct (rootMarker prim); [| by constructor]. cbn. rewrite app_nil_r.
    apply append_warned.
  - induction (map_to_list fs) as [| kn l IHl]; [by constructor |].
    cbn [omap list_omap].
    destruct (Fs.below dirpath (fst kn)); [| exact IHl].
    cbn [flat_map]. apply Forall_app. split; [apply append_warned | exact IHl].
Qed.

(** The warnings of the archive leave the promise pending when all are of
    the code ENOENT, and else reject it with the first that is not, which is
    logged as an error. *)
Lemma deliver_warned (prim : Primitive) (signals : list ArchiverSignal) (w : World) :
  Forall (warned prim) signals ->
  let st := fold_left deliver signals (Pending, w) in
  (fst st = Pending
   /\ Forall (fun sig => exists err, sig = Warning err /\ codeIs err "ENOENT" = true) signals)
  \/ (exists e, fst st = Rejected e /\ codeIs e "ENOENT" = false
                /\ (exists p, lstatError prim p = Some e)
                /\ LogError e ∈ logged (snd st)).
Proof.
  induction signals as [| sig signals IH] using rev_ind; intros H st.
  { left. by split. }
  apply Forall_app in H as [H Hs]. apply Forall_cons in Hs as [(err & -> & O) _].
  subst st. rewrite fold_left_app. cbn [fold_left].
  destruct (IH H) as [[P B] | (e & R & C & L & Lg)].
  - destruct (fold_left deliver signals (Pending, w)) as [o w1]. cbn in P. subst o.
    cbn [deliver]. unfold onWarning.
    destruct (codeIs err "ENOENT") eqn:Ce; cbn [fst snd].
    + left. split; [done |]. apply Forall_app. split; [done |].
      repeat constructor. by exists err.
    + right. exists err. split; [done |]. split; [done |].
      split; [by destruct O |]. by in_log.
  - right. exists e.
    destruct (fold_left deliver signals (Pending, w)) as [o w1]. cbn in R, Lg. subst o.
    cbn [deliver]. unfold onWarning.
    destruct (codeIs err "ENOENT"); cbn [fst snd reject]; (split; [done |]);
      (split; [done |]); (split; [done |]); by in_log.
Qed.

(** The close of the output resolves the promise, if it is still pending,
    and logs that the cache is saved. *)
Lemma pack_saved (signals : list ArchiverSignal) (pointer : N) (w : World) :
  let st := fold_left deliver (signals ++ [OutputClosed pointer]) (Pending, w) in
  fst st = resolve (fst (fold_left deliver signals (Pending, w)))
  /\ LogDebug "Cache build saved." ∈ logged (snd st)
  /\ (forall l, l ∈ logged (snd (fold_left deliver signals (Pending, w))) ->
                l ∈ logged (snd st))
  /\ fs (snd st) = fs w.
Proof.
  intros st. subst st. rewrite fold_left_app. cbn [fold_left deliver].
  unfold onClose. cbn [fst snd].
  split; [done |]. split; [by in_log |]. split; [intros l Hl; by in_log |].
  cbn [logLine fs]. by rewrite deliver_fs.
Qed.

(** What a pack goes through when the sources can be read. *)
Lemma createPackage_started (this : CacheBuild) (sources dest : string)
    (prim : Primitive) (w : World) (files : list (string * Fs.Kind)) :
  cacheFile this = Normal dest ->
  Fs.readdirSync (fs w) sources = Normal files ->
  exists queue w1,
    enqueueAll sources files w = (Normal queue, w1) /\ fs w1 = fs w
    /\ _createPackage this sources prim w
       = match Fs.openWrite (fs w) dest with
         | Throw _ =>
             fold_left deliver
               (OutputClosed (pointer prim)
                :: fst (gather (List.map (archiveItem prim (fs w)) queue))
                ++ match fatal prim with
                   | Some err => [ArchiverError err]
                   | None => []
                   end)
               (Pending, w1)
         | Normal fs1 =>
             let signals := fst (gather (List.map (archiveItem prim fs1) queue)) in
             let entries := snd (gather (List.map (archiveItem prim fs1) queue)) in
             match fatal prim with
             | Some err =>
                 fold_left deliver (signals ++ [ArchiverError err]) (Pending, setFs w1 fs1)
             | None =>
                 fold_left deliver (signals ++ [OutputClosed (pointer prim)])
                           (Pending, setFs w1 (<[dest := File (Zip entries)]> fs1))
             end
         end.
Proof.
  intros C R. destruct (enqueueAll_normal sources files w) as (queue & w1 & Q).
  exists queue, w1. split; [exact Q |].
  assert (Ef : fs w1 = fs w).
  { clear -Q. revert w queue Q. induction files as [| dirEnt rest IH]; intros w queue H.
    - cbn in H. by injection H as _ <-.
    - cbn in H. destruct (enqueue sources dirEnt) as [[lines items] | e]; [| done].
      destruct (enqueueAll sources rest _) as [[more | e] w2] eqn:E; [| done].
      injection H as _ <-. rewrite (IH _ _ E).
      clear. revert w. induction lines as [| l lines IHl]; intros w; [done |].
      cbn. by rewrite IHl. }
  split; [exact Ef |].
  unfold _createPackage. rewrite C, R, Q, Ef.
  destruct (Fs.openWrite (fs w) dest) as [fs1 | e].
  - cbn [fs setFs]. destruct (gather (List.map (archiveItem prim fs1) queue)).
    cbn [fst snd]. by destruct (fatal prim).
  - by destruct (gather (List.map (archiveItem prim (fs w)) queue)).
Qed.

(** The class of the warnings that do no harm: a pack whose archive meets
    nothing but paths that have gone is fulfilled. *)
Lemma pack_benign_fulfilled (this : CacheBuild) (sources dest : string)
    (prim : Primitive) (w : World) (files : list (string * Fs.Kind)) :
  cacheFile this = Normal dest ->
  Fs.readdirSync (fs w) sources = Normal files ->
  fatal prim = None ->
  (forall p err, lstatError prim p = Some err -> codeIs err "ENOENT" = true) ->
  fst (_createPackage this sources prim w) = Fulfilled.
Proof.
  intros C R F B.
  destruct (createPackage_started this sources dest prim w files C R)
    as (queue & w1 & _ & _ & ->).
  rewrite F. destruct (Fs.openWrite (fs w) dest) as [fs1 | e'].
  - cbv zeta.
    destruct (pack_saved (fst (gather (List.map (archiveItem prim fs1) queue)))
                (pointer prim)
                (setFs w1 (<[dest := File (Zip (snd (gather (List.map (archiveItem prim fs1)
                                                               queue))))]> fs1)))
      as (-> & _).
    destruct (deliver_warned prim _ (setFs w1 (<[dest := File (Zip (snd (gather
                (List.map (archiveItem prim fs1) queue))))]> fs1))
                (archive_warned prim fs1 queue))
      as [[-> _] | (e & _ & Ce & (p & L) & _)]; [done |].
    rewrite (B p e L) in Ce. done.
  - cbn [fold_left deliver]. unfold onClose. cbn [fst resolve].
    by apply deliver_settled.
Qed.

(** The class of the errors: an error of the archive rejects the pack, and
    is logged as an error. *)
Lemma pack_fatal_rejected (this : CacheBuild) (sources dest : string)
    (prim : Primitive) (w : World) (files : list (string * Fs.Kind)) (fs1 : FileSystem)
    (err : JsError) :
  cacheFile this = Normal dest ->
  Fs.readdirSync (fs w) sources = Normal files ->
  Fs.openWrite (fs w) dest = Normal fs1 ->
  fatal prim = Some err ->
  (forall p e, lstatError prim p = Some e -> codeIs e "ENOENT" = true) ->
  fst (_createPackage this sources prim w) = Rejected err
  /\ LogError err ∈ logged (snd (_createPackage this sources prim w)).
Proof.
  intros C R O F B.
  destruct (createPackage_started this sources dest prim w files C R)
    as (queue & w1 & _ & _ & ->).
  rewrite O, F. cbv zeta. rewrite fold_left_app.
  destruct (deliver_warned prim _ (setFs w1 fs1) (archive_warned prim fs1 queue))
    as [[P _] | (e & _ & Ce & (p & L) & _)]; [| by rewrite (B p e L) in Ce].
  destruct (fold_left deliver _ (Pending, setFs w1 fs1)) as [o w2]. cbn in P. subst o.
  cbn. split; [done |]. by in_log.
Qed.

(** ** Restoring: the event loop *)

Lemma countb_app (p : Task -> bool) (ts : list Task) (t : Task) :
  countb p (ts ++ [t]) = countb p ts + (if p t then 1 else 0).
Proof.
  unfold countb. rewrite List.filter_app, length_app. cbn. by destruct (p t).
Qed.

Lemma countb_insert (p : Task -> bool) (ts : list Task) (i : nat) (old t : Task) :
  ts !! i = Some old ->
  countb p (<[i := t]> ts) + (if p old then 1 else 0)
  = countb p ts + (if p t then 1 else 0).
Proof.
  unfold countb. revert i. induction ts as [| x ts IH]; intros [| i] H; try done.
  - injection H as ->. clear IH. cbn. destruct (p old), (p t); cbn; lia.
  - simpl in H. simpl. specialize (IH i H).
    destruct (p x), (p old), (p t); simpl in *; lia.
Qed.

Lemma existsb_insert (p : Task -> bool) (ts : list Task) (i : nat) (old t : Task) :
  ts !! i = Some old -> p old = false ->
  existsb p (<[i := t]> ts) = existsb p ts || p t.
Proof.
  revert i. induction ts as [| x ts IH]; intros [| i] H O; try done.
  - injection H as ->. simpl. rewrite O. simpl. by rewrite orb_comm.
  - simpl in H. simpl. rewrite (IH i H O). by rewrite orb_assoc.
Qed.

Lemma countb_pos (p : Task -> bool) (ts : list Task) (i : nat) (t : Task) :
  ts !! i = Some t -> p t = true -> 0 < countb p ts.
Proof.
  unfold countb. revert i. induction ts as [| x ts IH]; intros [| i] H P; try done.
  - injection H as ->. simpl. rewrite P. simpl. lia.
  - simpl in H. simpl. specialize (IH i H P). destruct (p x); simpl; lia.
Qed.

Lemma weight_insert (ts : list Task) (i : nat) (old t : Task) :
  ts !! i = Some old ->
  list_sum (List.map weight (<[i := t]> ts)) + weight old
  = list_sum (List.map weight ts) + weight t.
Proof.
  revert i. induction ts as [| x ts IH]; intros [| i] H; try done.
  - injection H as ->. simpl. lia.
  - simpl in H. simpl. specialize (IH i H). lia.
Qed.

Lemma weight_app (ts : list Task) (t : Task) :
  list_sum (List.map weight (ts ++ [t])) = list_sum (List.map weight ts) + weight t.
Proof. rewrite List.map_app, list_sum_app. cbn. lia. Qed.

Ltac loop_simpl :=
  cbn -[Nat.mul firstFailed allFinished existsb lookup insert Fs.ensureDir Path.join
        Fs.openWrite Path.endsWithSlash Path.dirname list_sum countb] in *.

Ltac fire_cases H :=
  repeat match type of H with
         | context [match ?x with _ => _ end] =>
             let E := fresh "E" in destruct x eqn:E; try discriminate H; loop_simpl
         end.

(** Every turn uses up one of the turns that are left. *)
Lemma fire_turnsLeft (ev : Event) (r r' : Restore) :
  fire ev r = Some r' -> turnsLeft r' < turnsLeft r.
Proof.
  destruct r as [w [es er rr io ce] d ps o]. unfold fire, turnsLeft. loop_simpl.
  intros H.
  destruct o as [| | e | e]; [| | | done]; destruct ce;
    destruct ev as [| i | i | i | |]; loop_simpl.
  all: fire_cases H; try discriminate H; injection H as <-.
  all: unfold onEntry, fail, setTask; loop_simpl.
  all: repeat match goal with
              | |- context [match ?x with _ => _ end] => destruct x; loop_simpl
              end.
  all: rewrite ?weight_app; loop_simpl.
  all: try match goal with
           | H : ?ps !! ?i = Some ?old |- context [<[?i := ?t]> ?ps] =>
               pose proof (weight_insert ps i old t H)
           end.
  all: try match goal with
           | H : _ !! _ = Some (?p, ?q) |- _ => apply lookup_lt_Some in H
           | H : _ !! _ = Some ?p |- _ =>
               match type of p with
               | (string * _)%type => apply lookup_lt_Some in H
               end
           end.
  all: loop_simpl; try done; try lia.
Qed.

Lemma head_omap_None {A B : Type} (f : A -> option B) (l : list A) :
  head (omap f l) = None <-> Forall (fun a => f a = None) l.
Proof.
  induction l as [| a l IH]; [by split; [constructor |] |]. cbn.
  destruct (f a) eqn:E; cbn.
  - split; [done |]. intros H. apply Forall_cons in H as [H _]. congruence.
  - rewrite IH. split; [by constructor | by intros [_ ?]%Forall_cons].
Qed.

Lemma head_omap_Some {A B : Type} (f : A -> option B) (l : list A) (b : B) :
  head (omap f l) = Some b -> exists a, a ∈ l /\ f a = Some b.
Proof.
  induction l as [| a l IH]; [done |]. cbn.
  destruct (f a) eqn:E; cbn.
  - intros [= <-]. exists a. split; [by left | done].
  - intros H. destruct (IH H) as (a' & ? & ?). exists a'. split; [by right | done].
Qed.

Lemma next_fire (r r' : Restore) : next r = Some r' -> exists ev, fire ev r = Some r'.
Proof. intros H. apply head_omap_Some in H as (ev & _ & H). eauto. Qed.

(** No event is due when [next] finds none. *)
Lemma next_None (r : Restore) : next r = None <-> forall ev, fire ev r = None.
Proof.
  unfold next. rewrite head_omap_None, Forall_forall. split; [| by auto].
  intros H ev.
  assert (T : forall i, List.length (promises r) <= i -> promises r !! i = None)
    by (intros; by apply lookup_ge_None).
  assert (C : forall i, i < List.length (promises r) ->
                DirEnsured i ∈ candidates r /\ StreamOpened i ∈ candidates r
                /\ WriteClosed i ∈ candidates r).
  { intros i Hi. unfold candidates.
    assert (In i (seq 0 (List.length (promises r)))) as Hin by (apply in_seq; lia).
    repeat split; do 3 right; apply list_elem_of_In, in_flat_map; exists i;
      (split; [done |]); cbn; tauto. }
  destruct ev as [| i | i | i | |]; try (apply H; unfold candidates; by repeat constructor).
  all: destruct (decide (i < List.length (promises r))) as [Hi | Hi];
    [apply H; by apply C |].
  all: unfold fire; rewrite T by lia; by destruct (outcome r).
Qed.

(** The loop stops within the turns it is given. *)
Lemma run_quiescent (fuel : nat) (r : Restore) :
  turnsLeft r <= fuel -> next (run fuel r) = None.
Proof.
  revert r. induction fuel as [| fuel IH]; intros r H; cbn.
  - destruct (next r) as [r' |] eqn:N; [| done].
    apply next_fire in N as (ev & F). apply fire_turnsLeft in F. lia.
  - destruct (next r) as [r' |] eqn:N; [| done].
    apply IH. apply next_fire in N as (ev & F). apply fire_turnsLeft in F. lia.
Qed.

Lemma run_replay (fuel : nat) (r : Restore) :
  exists evs, replay evs r = Some (run fuel r).
Proof.
  revert r. induction fuel as [| fuel IH]; intros r; [by exists [] |]. cbn.
  destruct (next r) as [r' |] eqn:N; [| by exists []].
  apply next_fire in N as (ev & F). destruct (IH r') as (evs & R).
  exists (ev :: evs). cbn. by rewrite F.
Qed.

Lemma opened_turnsLeft (source destination : string) (w : World) (r0 : Restore) :
  opened source destination w = inl r0 ->
  turnsLeft r0 = turns (zipEntries (zipFile r0)).
Proof.
  unfold opened. repeat case_match; try done. intros [= <-].
  unfold turnsLeft, turns. cbn. lia.
Qed.

Lemma opened_invariant (source destination : string) (w : World) (r0 : Restore) :
  opened source destination w = inl r0 -> Invariant r0.
Proof.
  unfold opened. repeat case_match; try done. intros [= <-].
  constructor; cbn; try done; try lia. by intros [? | [? ?]].
Qed.

Ltac inv_done :=
  try done; try lia; try (by intros [? | [? ?]]);
  try (intros; repeat split; try done; lia).

(** The invariant is kept by every turn. *)
Lemma fire_invariant (ev : Event) (r r' : Restore) :
  Invariant r -> fire ev r = Some r' -> Invariant r'.
Proof.
  destruct r as [w [es er rr io ce] d ps o]. intros [I1 I2 I3 I4 I5] H.
  unfold fire in H. loop_simpl.
  assert (P : o = Pending \/ (io = false /\ rr = 0 /\ countb inFlight ps = 0
                              /\ existsb isFailed ps = false)).
  { destruct o as [| | e | e]; [by left | right | right | done].
    all: assert (ce = true) as -> by (apply I5; eauto).
    all: specialize (I4 eq_refl) as ->; destruct (I3 eq_refl) as [? ?].
    all: repeat split; try done.
    all: destruct (existsb isFailed ps); [| done]; by destruct (I2 eq_refl) as (_ & _ & ? & _). }
  assert (F : existsb isFailed ps = true -> io = true /\ rr = 0 /\ countb inFlight ps = 0)
    by (intros X; destruct (I2 X) as (? & ? & ? & _); done).
  assert (U : match o with Uncaught _ => False | _ => True end)
    by (by destruct o).
  destruct ev as [| i | i | i | |].
  - assert (H' : match rr with
                 | O => None
                 | S pending =>
                     if negb io then None else
                     match es !! er with
                     | Some entry =>
                         Some (onEntry entry
                                 (MkRestore w (MkZipFile es (S er) pending true ce) d ps o))
                     | None => Some (MkRestore w (MkZipFile es er pending false ce) d ps o)
                     end
                 end = Some r') by (by destruct o).
    clear H. destruct rr as [| n]; [done |]. destruct io; [| done]. loop_simpl.
    assert (n = 0) as -> by lia. assert (C0 : countb inFlight ps = 0) by lia.
    assert (NF : existsb isFailed ps = false).
    { destruct (existsb isFailed ps); [| done]. by destruct (F eq_refl) as (_ & ? & _). }
    assert (o = Pending) as -> by (by destruct P as [? | [? _]]).
    assert (ce = false) as -> by (destruct ce; [by specialize (I4 eq_refl) | done]).
    destruct (es !! er) as [entry |]; injection H' as <-.
    + unfold onEntry. loop_simpl.
      repeat case_match; constructor; loop_simpl;
        rewrite ?countb_app, ?existsb_app, ?C0, ?NF; cbn;
        inv_done.
    + constructor; loop_simpl; rewrite ?C0, ?NF; inv_done.
  - assert (H' : match ps !! i with
                 | Some (EnsuringDir entry dir) =>
                     match Fs.ensureDir (fs w) dir with
                     | (fs', None) =>
                         let r := MkRestore (setFs w fs') (MkZipFile es er rr io ce) d ps o in
                         if io then Some (setTask i (OpeningStream entry) r)
                         else Some (fail i (MkError "Error" None "closed") r)
                     | (fs', Some e) =>
                         Some (fail i e (MkRestore (setFs w fs') (MkZipFile es er rr io ce)
                                                   d ps o))
                     end
                 | _ => None
                 end = Some r') by (by destruct o).
    clear H. destruct (ps !! i) as [[entry dir | | | |] |] eqn:L; try done.
    pose proof (countb_pos inFlight ps i _ L eq_refl) as C1.
    assert (rr = 0) as -> by lia.
    assert (NF : existsb isFailed ps = false).
    { destruct (existsb isFailed ps); [| done]. destruct (F eq_refl) as (_ & _ & ?). lia. }
    assert (io = true) as -> by (destruct io; [done | destruct (I3 eq_refl); lia]).
    assert (o = Pending) as -> by (destruct P as [? | (? & _)]; done).
    assert (ce = false) as -> by (destruct ce; [by specialize (I4 eq_refl) | done]).
    destruct (Fs.ensureDir (fs w) dir) as [fs' [e |]]; injection H' as <-;
      unfold fail, setTask; loop_simpl.
    all: pose proof (countb_insert inFlight ps i _ (Failed e) L) as CF
         || pose proof (countb_insert inFlight ps i _ (OpeningStream entry) L) as CF.
    all: pose proof (fun t => existsb_insert isFailed ps i _ t L eq_refl) as EF.
    all: constructor; loop_simpl; rewrite ?EF, ?NF; cbn in *; inv_done.
  - assert (H' : match ps !! i with
                 | Some (OpeningStream entry) =>
                     match entryData entry with
                     | inl err => Some (fail i err (MkRestore w (MkZipFile es er rr io ce) d ps o))
                     | inr data =>
                         match dest ← Path.join [JsString d; JsString (fileName entry)];
                               fs' ← Fs.openWrite (fs w) dest;
                               mret (dest, fs') with
                         | Normal (dest, fs') =>
                             Some (setTask i (Piping entry data dest)
                                     (MkRestore (setFs w fs') (MkZipFile es er rr io ce) d ps o))
                         | Throw e =>
                             Some (MkRestore w (MkZipFile es er rr io ce) d ps (Uncaught e))
                         end
                     end
                 | _ => None
                 end = Some r') by (by destruct o).
    clear H. destruct (ps !! i) as [[| entry | | |] |] eqn:L; try done.
    pose proof (countb_pos inFlight ps i _ L eq_refl) as C1.
    assert (rr = 0) as -> by lia.
    assert (NF : existsb isFailed ps = false).
    { destruct (existsb isFailed ps); [| done]. destruct (F eq_refl) as (_ & _ & ?). lia. }
    assert (io = true) as -> by (destruct io; [done | destruct (I3 eq_refl); lia]).
    assert (o = Pending) as -> by (destruct P as [? | (? & _)]; done).
    assert (ce = false) as -> by (destruct ce; [by specialize (I4 eq_refl) | done]).
    pose proof (fun t => existsb_insert isFailed ps i _ t L eq_refl) as EF.
    destruct (entryData entry) as [err | data].
    + injection H' as <-. unfold fail. loop_simpl.
      pose proof (countb_insert inFlight ps i _ (Failed err) L) as CF.
      constructor; loop_simpl; rewrite ?EF, ?NF; cbn in *; inv_done.
    + destruct (_ ≫= _) as [[dest fs'] | e] in H'; injection H' as <-.
      * unfold setTask. loop_simpl.
        pose proof (countb_insert inFlight ps i _ (Piping entry data dest) L) as CF.
        constructor; loop_simpl; rewrite ?EF, ?NF; cbn in *; inv_done.
      * constructor; loop_simpl; rewrite ?NF; inv_done.
  - assert (H' : match ps !! i with
                 | Some (Piping entry data dest) =>
                     Some (setTask i Finished
                             (MkRestore (setFs w (<[dest := File data]> (fs w)))
                                        (readEntry (MkZipFile es er rr io ce)) d ps o))
                 | _ => None
                 end = Some r') by (by destruct o).
    clear H. destruct (ps !! i) as [[| | entry data dest | |] |] eqn:L; try done.
    pose proof (countb_pos inFlight ps i _ L eq_refl) as C1.
    assert (rr = 0) as -> by lia.
    assert (NF : existsb isFailed ps = false).
    { destruct (existsb isFailed ps); [| done]. destruct (F eq_refl) as (_ & _ & ?). lia. }
    assert (io = true) as -> by (destruct io; [done | destruct (I3 eq_refl); lia]).
    assert (o = Pending) as -> by (destruct P as [? | (? & _)]; done).
    assert (ce = false) as -> by (destruct ce; [by specialize (I4 eq_refl) | done]).
    pose proof (fun t => existsb_insert isFailed ps i _ t L eq_refl) as EF.
    pose proof (countb_insert inFlight ps i _ Finished L) as CF.
    injection H' as <-. unfold setTask, readEntry. loop_simpl.
    constructor; loop_simpl; rewrite ?EF, ?NF; cbn in *; inv_done.
  - assert (H' : (if negb io && negb ce && negb (existsb isPiping ps)
                  then Some (MkRestore (logLine (LogDebug "Build copied from cache.") w)
                               (MkZipFile es er rr false true) d ps o)
                  else None) = Some r') by (by destruct o).
    clear H. destruct io; [done |]. destruct ce; [done |]. cbn in H'.
    destruct (existsb isPiping ps); [done |]. injection H' as <-.
    constructor; loop_simpl; try done;
      try (intros X; by destruct (F X)).
  - destruct o; try done. destruct ce; [| done].
    specialize (I4 eq_refl) as ->.
    assert (NF : existsb isFailed ps = false).
    { destruct (existsb isFailed ps); [| done]. by destruct (F eq_refl). }
    fire_cases H; try discriminate H; injection H as <-.
    all: constructor; loop_simpl; rewrite ?NF; try done.
Qed.

Lemma replay_invariant (evs : list Event) (r r' : Restore) :
  Invariant r -> replay evs r = Some r' -> Invariant r'.
Proof.
  revert r. induction evs as [| ev evs IH]; intros r I H; cbn in H.
  - by injection H as <-.
  - destruct (fire ev r) as [r1 |] eqn:F; [| done].
    eapply IH; [| exact H]. by eapply fire_invariant.
Qed.

Lemma countb_piping (ts : list Task) : countb isPiping ts <= countb inFlight ts.
Proof.
  unfold countb. induction ts as [| t ts IH]; [done |].
  destruct t; cbn; lia.
Qed.

Lemma tasks_finished (ts : list Task) :
  countb inFlight ts = 0 -> existsb isFailed ts = false ->
  Forall (fun t => t = Finished) ts.
Proof.
  unfold countb. induction ts as [| t ts IH]; [by constructor |].
  destruct t; cbn; try done. intros C F. constructor; [done |]. by apply IH.
Qed.

(** A turn leaves a request for the next entry only when it has skipped a
    directory marker or seen the write stream of a file close. *)
Lemma request_after_completion (ev : Event) (r r' : Restore) :
  Invariant r -> fire ev r = Some r' -> 0 < readRequests (zipFile r') ->
  (ev = ZipRead
   /\ exists entry, zipEntries (zipFile r) !! entriesRead (zipFile r) = Some entry
                    /\ Path.endsWithSlash (fileName entry) = true)
  \/ (exists i entry data dest,
        ev = WriteClosed i /\ promises r !! i = Some (Piping entry data dest)).
Proof.
  destruct r as [w [es er rr io ce] d ps o]. intros [I1 I2 I3 I4 I5] H Q.
  unfold fire in H. loop_simpl.
  destruct o as [| | e | e]; [| | | done].
  all: destruct ev as [| i | i | i | |]; loop_simpl.
  all: fire_cases H; try discriminate H; injection H as <-.
  all: unfold onEntry, fail, setTask, readEntry in Q; loop_simpl.
  all: try (right; eauto 10; fail).
  all: try match goal with
           | H : ?ps !! ?i = Some ?t |- _ =>
               pose proof (countb_pos inFlight ps i t H eq_refl); lia
           end.
  all: try (destruct io; [done |]; destruct (I3 eq_refl); lia).
  all: try (specialize (I4 eq_refl); subst; destruct (I3 eq_refl); lia).
  all: try (destruct (I5 ltac:(eauto)); fail).
  all: repeat match type of Q with
              | context [match ?x with _ => _ end] =>
                  let E := fresh "E" in destruct x eqn:E; loop_simpl
              end.
  all: try lia.
  all: try (left; split; [done |]; eauto; fail).
Qed.

(** C5. In every state the event loop of a restore reaches, the entries in
    flight and the requests for a next entry are at most one together: no
    entry is requested while one is extracted, so at most one entry has its
    streams open; a request is pending only when every entry handed out so
    far is finished; and a turn leaves a request pending only when it has
    skipped a directory marker or seen the write stream of a file close. *)
Theorem single_entry_in_flight (source destination : string) (w : World)
    (r0 r : Restore) (evs : list Event) :
  opened source destination w = inl r0 ->
  replay evs r0 = Some r ->
  countb inFlight (promises r) + readRequests (zipFile r) <= 1
  /\ countb isPiping (promises r) <= 1
  /\ (0 < readRequests (zipFile r) -> Forall (fun t => t = Finished) (promises r))
  /\ (forall ev r', fire ev r = Some r' -> 0 < readRequests (zipFile r') ->
        (ev = ZipRead
         /\ exists entry, zipEntries (zipFile r) !! entriesRead (zipFile r) = Some entry
                          /\ Path.endsWithSlash (fileName entry) = true)
        \/ (exists i entry data dest,
              ev = WriteClosed i /\ promises r !! i = Some (Piping entry data dest))).
Proof.
  intros O R.
  pose proof (replay_invariant evs r0 r (opened_invariant _ _ _ _ O) R) as I.
  pose proof I as [I1 I2 _ _ _].
  split; [exact I1 |]. split; [| split].
  - pose proof (countb_piping (promises r)). lia.
  - intros Q. apply tasks_finished; [lia |].
    destruct (existsb isFailed (promises r)); [| done].
    destruct (I2 eq_refl) as (_ & ? & _). lia.
  - intros ev r' F Q. by eapply request_after_completion.
Qed.

(** After the failure of an entry nothing is due any more, and the promise
    of the restore is still pending. *)
Lemma failed_entry_deadlock (source destination : string) (w : World)
    (r0 r : Restore) (evs : list Event) :
  opened source destination w = inl r0 ->
  replay evs r0 = Some r ->
  existsb isFailed (promises r) = true ->
  outcome r = Pending /\ forall ev, fire ev r = None.
Proof.
  intros O R X.
  pose proof (replay_invariant evs r0 r (opened_invariant _ _ _ _ O) R)
    as [I1 I2 I3 I4 I5].
  destruct (I2 X) as (C & Q & Op & Po). split; [exact Po |].
  destruct r as [w' [es er rr io ce] d ps o]. cbn in *. subst.
  assert (ce = false) as -> by (destruct ce; [by specialize (I4 eq_refl) | done]).
  assert (T : forall i t, ps !! i = Some t -> inFlight t = false).
  { intros i t L. destruct (inFlight t) eqn:E; [| done].
    pose proof (countb_pos inFlight ps i t L E). unfold countb in *. lia. }
  intros [| i | i | i | |]; unfold fire; cbn; try done.
  all: destruct (ps !! i) as [t |] eqn:L; [| done].
  all: specialize (T i t L); by destruct t.
Qed.

Lemma replay_snoc (evs : list Event) (ev : Event) (r r' : Restore) :
  replay (evs ++ [ev]) r = Some r' ->
  exists r1, replay evs r = Some r1 /\ fire ev r1 = Some r'.
Proof.
  revert r. induction evs as [| ev' evs IH]; intros r R; cbn in *.
  - destruct (fire ev r) eqn:F; [| done]. injection R as <-. by exists r.
  - destruct (fire ev' r) as [r2 |] eqn:F; [| done]. by apply IH.
Qed.

(** The events of a restore never reject its promise: [Promise.all] is
    reached only when no entry has failed. *)
Lemma restore_never_rejects (source destination : string) (w : World)
    (r0 r : Restore) (evs : list Event) :
  opened source destination w = inl r0 ->
  replay evs r0 = Some r ->
  forall e, outcome r <> Rejected e.
Proof.
  intros O R. revert r R.
  induction evs as [| ev evs IH] using rev_ind; intros r R e.
  - cbn in R. injection R as <-. unfold opened in O.
    repeat case_match; try done. injection O as <-. by cbn.
  - apply replay_snoc in R as (r1 & R1 & F).
    pose proof (replay_invariant evs r0 r1 (opened_invariant _ _ _ _ O) R1)
      as [I1 I2 I3 I4 I5].
    specialize (IH r1 R1).
    destruct r1 as [w' [es er rr io ce] d ps o]. intros E.
    unfold fire in F. loop_simpl.
    destruct o as [| | e' | e']; try done; [| | by destruct (IH e')].
    all: destruct ev; fire_cases F; try discriminate F; injection F as <-.
    all: unfold onEntry, setTask, fail in E; loop_simpl; repeat case_match;
      try discriminate E.
    all: specialize (I4 eq_refl); subst.
    all: match goal with
         | H : firstFailed ?ps = Some _ |- _ =>
             assert (existsb isFailed ps = true) as X
         end.
    all: try (by destruct (I2 X) as (_ & _ & ? & _)).
    all: match goal with
         | H : firstFailed ?ps = Some _ |- _ =>
             clear -H; induction ps as [| [] ps IHp]; cbn in *; try done; by apply IHp
         end.
Qed.

Lemma single_entry_in_flight_witness :
  exists r0 r,
    opened "/cache/k.zip" "/work/build" markerWorld = inl r0
    /\ replay [ZipRead; ZipRead; DirEnsured 1; StreamOpened 1] r0 = Some r
    /\ promises r = [Finished; Piping ("sub/b.txt", inr (Bytes "B")) (Bytes "B")
                                      "/work/build/sub/b.txt"]
    /\ countb inFlight (promises r) + readRequests (zipFile r) <= 1
    /\ countb isPiping (promises r) <= 1.
Proof.
  destruct (opened "/cache/k.zip" "/work/build" markerWorld) as [r0 | e] eqn:O;
    [| vm_compute in O; discriminate].
  destruct (replay [ZipRead; ZipRead; DirEnsured 1; StreamOpened 1] r0) as [r |] eqn:R;
    [| vm_compute in O; injection O as <-; vm_compute in R; discriminate].
  exists r0, r. split; [reflexivity |]. split; [exact R |].
  destruct (single_entry_in_flight _ _ _ r0 r _ O R) as (I1 & I2 & _ & _).
  split; [| split; [exact I1 | exact I2]].
  vm_compute in O. injection O as <-. vm_compute in R. injection R as <-. reflexivity.
Defined.

(** ** The runs of [_processZip] *)

(** The state [_processZip] ends in: nothing is due in it. *)
Lemma processZip_quiescent (source destination : string) (w : World) (r0 : Restore) :
  opened source destination w = inl r0 ->
  let r := run (turns (zipEntries (zipFile r0))) r0 in
  _processZip source destination w = (outcome r, world r)
  /\ (forall ev, fire ev r = None)
  /\ Invariant r.
Proof.
  intros O r. split; [| split].
  - unfold _processZip. by rewrite O.
  - apply next_None, run_quiescent. by rewrite (opened_turnsLeft _ _ _ _ O).
  - destruct (run_replay (turns (zipEntries (zipFile r0))) r0) as (evs & R).
    eapply replay_invariant; [| exact R]. by eapply opened_invariant.
Qed.

(** A restore that an entry fails in is never settled. *)
Lemma processZip_failed_pending (source destination : string) (w : World) (r0 : Restore) :
  opened source destination w = inl r0 ->
  existsb isFailed (promises (run (turns (zipEntries (zipFile r0))) r0)) = true ->
  fst (_processZip source destination w) = Pending.
Proof.
  intros O X. destruct (processZip_quiescent _ _ _ _ O) as (-> & _ & [_ I2 _ _ _]).
  by destruct (I2 X) as (_ & _ & _ & ?).
Qed.

(** The archive is open: no entry makes [_processZip] reject. *)
Lemma processZip_never_rejects (source destination : string) (w : World) (r0 : Restore) :
  opened source destination w = inl r0 ->
  forall e, fst (_processZip source destination w) <> Rejected e.
Proof.
  intros O e. destruct (processZip_quiescent _ _ _ _ O) as (-> & _ & _).
  destruct (run_replay (turns (zipEntries (zipFile r0))) r0) as (evs & R).
  by eapply restore_never_rejects.
Qed.

(** C6 on an archive whose second entry cannot be read. The failure is
    logged as a warning and the file extracted before it stays, but the
    promise of [_processZip] is not rejected: [readEntry] is not called
    after the failure, the archive never ends nor closes, and the promise
    stays pending with nothing left to run. *)
Theorem failed_entry_never_settles :
  exists r0 : Restore,
    opened "/cache/k.zip" "/work/build" brokenWorld = inl r0
    /\ let r := run (turns (zipEntries (zipFile r0))) r0 in
       _processZip "/cache/k.zip" "/work/build" brokenWorld = (Pending, world r)
       /\ promises r = [Finished; Failed unsupported]
       /\ (forall ev, fire ev r = None)
       /\ logged (world r) = [LogWarn unsupported]
       /\ fs (world r) !! "/work/build/a.txt" = Some (File (Bytes "A"))
       /\ fs (world r) !! "/work/build/c.txt" = None.
Proof.
  destruct (opened "/cache/k.zip" "/work/build" brokenWorld) as [r0 | e] eqn:O;
    [| vm_compute in O; discriminate].
  exists r0. split; [reflexivity |]. intros r.
  destruct (processZip_quiescent _ _ _ _ O) as (E & Q & _). fold r in E, Q.
  rewrite E. subst r. vm_compute in O. injection O as <-.
  split; [vm_compute; reflexivity |]. split; [vm_compute; reflexivity |].
  split; [exact Q |].
  do 2 (split; [vm_compute; reflexivity |]). vm_compute. reflexivity.
Qed.

(** ** Packing and restoring *)

(** C3. A build with the files a.txt and sub/b.txt, whatever they hold, is
    packed by [cacheBuild] and restored by [restore] into the empty
    destination: both promises are fulfilled, both files are at the same
    relative paths with the same data, and the tree below the destination is
    the tree below the sources. *)
Theorem pack_unpack_roundtrip (a b : FileData) (pointer : N) (rootMarker : bool) :
  exists (this : CacheBuild) (w1 w2 w3 : World),
    constructor linuxProcess exampleOptions (MkWorld (sourceTree a b) []) = (Normal this, w1)
    /\ cacheBuild this "/work/dist" (quiet pointer rootMarker) w1 = (Fulfilled, w2)
    /\ restore this "/work/build" w2 = (Fulfilled, w3)
    /\ fs w3 !! "/work/build/a.txt" = Some (File a)
    /\ fs w3 !! "/work/build/sub/b.txt" = Some (File b)
    /\ tree (fs w3) "/work/build" = tree (sourceTree a b) "/work/dist".
Proof.
  set (this := MkCacheBuild exampleOptions (JsString (createHash exampleOptions))
                 (JsString "/home/user/.config/api-console/cache/builds")).
  set (w1 := snd (constructor linuxProcess exampleOptions (MkWorld (sourceTree a b) []))).
  set (w2 := snd (cacheBuild this "/work/dist" (quiet pointer rootMarker) w1)).
  set (w3 := snd (restore this "/work/build" w2)).
  exists this, w1, w2, w3. subst w3 w2 w1 this.
  destruct rootMarker.
  all: do 5 (split; [vm_compute; reflexivity |]); vm_compute; reflexivity.
Qed.

(** ** A rejected pack and the cache *)

(** C8. Of the two classes of failure the first is as the claim has it: a
    warning with the code ENOENT is logged and the pack goes on to be
    fulfilled ([pack_benign_fulfilled]). A warning of any other code is
    logged as an error and rejects the promise, but the pack is not aborted:
    the archive goes on without the path, its output closes, 'Cache build
    saved.' is logged, and the archive that lacks the path stays in the
    cache, where [hasCache] finds it and [restore] opens it. *)
Theorem rejected_pack_is_saved (this : CacheBuild) (sources dest : string)
    (prim : Primitive) (w w' : World) (files : list (string * Fs.Kind)) (e : JsError) :
  ToBoolean (get (opts this) "noCache") = false ->
  cacheFile this = Normal dest ->
  Fs.readdirSync (fs w) sources = Normal files ->
  fatal prim = None ->
  _createPackage this sources prim w = (Rejected e, w') ->
  codeIs e "ENOENT" = false
  /\ (exists p, lstatError prim p = Some e)
  /\ LogError e ∈ logged w'
  /\ LogDebug "Cache build saved." ∈ logged w'
  /\ (exists entries, fs w' !! dest = Some (File (Zip entries)))
  /\ hasCache this w' = (Normal true, w')
  /\ forall build err, fst (restore this build w') <> Rejected err.
Proof.
  intros N C R F H.
  destruct (createPackage_started this sources dest prim w files C R)
    as (queue & w1 & _ & _ & E).
  rewrite H, F in E.
  destruct (Fs.openWrite (fs w) dest) as [fs1 | e'].
  2: { exfalso. apply (f_equal fst) in E. cbn [fst fold_left deliver] in E.
       unfold onClose in E. cbn [fst resolve] in E.
       rewrite deliver_settled in E; done. }
  cbv zeta in E.
  set (signals := fst (gather (List.map (archiveItem prim fs1) queue))) in *.
  set (entries := snd (gather (List.map (archiveItem prim fs1) queue))) in *.
  set (w2 := setFs w1 (<[dest := File (Zip entries)]> fs1)) in *.
  destruct (pack_saved signals (pointer prim) w2) as (Eo & Saved & Mono & Efs).
  rewrite <- E in Eo, Saved, Mono, Efs. cbn [fst snd] in Eo, Saved, Mono, Efs.
  destruct (deliver_warned prim signals w2 (archive_warned prim fs1 queue))
    as [[P _] | (e1 & R1 & Ce & L & Lg)].
  { rewrite P in Eo. done. }
  rewrite R1 in Eo. cbn in Eo. injection Eo as ->.
  assert (Ld : fs w' !! dest = Some (File (Zip entries))).
  { rewrite Efs. subst w2. cbn [fs setFs]. by rewrite lookup_insert_eq. }
  split; [exact Ce |]. split; [exact L |]. split; [by apply Mono |].
  split; [exact Saved |]. split; [by exists entries |]. split.
  - unfold hasCache. rewrite N.
    unfold mbind, M_bind, lift, readFs, mret, M_ret. rewrite C.
    unfold Fs.pathExists. by rewrite Ld.
  - intros build err. unfold restore. rewrite C.
    destruct (opened dest build (logLine (LogDebug "Opening cached zip file.") w'))
      as [r0 | e'] eqn:O.
    + by eapply processZip_never_rejects.
    + unfold opened in O. cbn [fs logLine] in O. by rewrite Ld in O.
Qed.

Lemma rejected_pack_is_saved_witness :
  let denied := fsError "EACCES" "/work/dist/a.txt" in
  let packed := _createPackage packStore "/work/dist" (failingOn "EACCES") packWorld in
  fst packed = Rejected denied
  /\ LogError denied ∈ logged (snd packed)
  /\ LogDebug "Cache build saved." ∈ logged (snd packed)
  /\ hasCache packStore (snd packed) = (Normal true, snd packed).
Proof.
  intros denied packed.
  assert (P : packed = (Rejected denied, snd packed)) by (vm_compute; reflexivity).
  destruct (rejected_pack_is_saved packStore "/work/dist" "/cache/k.zip"
              (failingOn "EACCES") packWorld (snd packed)
              [("a.txt", Fs.IsFile); ("b.txt", Fs.IsFile)] denied)
    as (_ & _ & H1 & H2 & _ & H3 & _).
  - vm_compute. reflexivity.
  - vm_compute. reflexivity.
  - vm_compute. reflexivity.
  - reflexivity.
  - exact P.
  - split; [exact (f_equal fst P) |]. split; [exact H1 |]. split; [exact H2 | exact H3].
Defined.

(** The pack of C8 in which a.txt may not be read, and the restore that
    follows it: the pack is rejected, the archive without a.txt is saved,
    the cache reports a hit, and the restore is fulfilled with a build that
    lacks a.txt. *)
Example denied_file_poisons_cache :
  let packed := cacheBuild packStore "/work/dist" (failingOn "EACCES") packWorld in
  let restored := restore packStore "/work/build" (snd packed) in
  fst packed = Rejected (fsError "EACCES" "/work/dist/a.txt")
  /\ fs (snd packed) !! "/cache/k.zip" = Some (File (Zip [("b.txt", inr (Bytes "B"))]))
  /\ hasCache packStore (snd packed) = (Normal true, snd packed)
  /\ fst restored = Fulfilled
  /\ fs (snd restored) !! "/work/build/a.txt" = None
  /\ fs (snd restored) !! "/work/build/b.txt" = Some (File (Bytes "B")).
Proof.
  do 5 (split; [vm_compute; reflexivity |]). vm_compute. reflexivity.
Qed.

(** ** Restoring: what a fulfilled restore has written *)

Lemma mkdirs_keeps (dirs : list string) (fs fs' : FileSystem) (e : option JsError)
    (p : string) (n : Node) :
  Fs.mkdirs dirs fs = (fs', e) -> fs !! p = Some n -> fs' !! p = Some n.
Proof.
  revert fs. induction dirs as [| d rest IH]; intros fs H L; cbn in H.
  - by injection H as <- _.
  - destruct (fs !! d) as [[data |] |] eqn:E.
    + by injection H as <- _.
    + by eapply IH.
    + destruct (Fs.alwaysThere d); [by eapply IH |].
      eapply IH; [exact H |]. rewrite lookup_insert_ne; [done |]. congruence.
Qed.

Lemma openWrite_keeps (fs fs' : FileSystem) (dst p : string) :
  Fs.openWrite fs dst = Normal fs' -> p <> dst -> fs' !! p = fs !! p.
Proof.
  unfold Fs.openWrite. intros H N. repeat case_match; try done.
  all: injection H as <-; by rewrite lookup_insert_ne.
Qed.

Lemma tracks_mono (d : string) (fs fs' : FileSystem) (entry : ZipEntry) (t : Task) :
  (forall dst data, target d entry = Some dst ->
                    fs !! dst = Some (File data) -> fs' !! dst = Some (File data)) ->
  tracks d fs entry t -> tracks d fs' entry t.
Proof.
  intros K. destruct t; cbn; try done.
  intros [M | (data & dst & D & T & L)]; [by left | right].
  exists data, dst. eauto.
Qed.

Lemma targets_distinct (d : string) (es : list ZipEntry) (i j : nat)
    (a b : ZipEntry) (p : string) :
  NoDup (targets d es) ->
  es !! i = Some a -> es !! j = Some b ->
  target d a = Some p -> target d b = Some p -> i = j.
Proof.
  unfold targets. revert i j. induction es as [| x es IH]; intros i j N A B Ta Tb; [done |].
  assert (In : forall k c, es !! k = Some c -> target d c = Some p ->
                           p ∈ omap (target d) es).
  { intros k c L T. apply list_elem_of_omap. exists c. split; [| done].
    by eapply list_elem_of_lookup_2. }
  destruct i as [| i], j as [| j]; cbn in A, B; [done | | |].
  - injection A as ->. cbn in N. rewrite Ta in N. apply NoDup_cons in N as [N _].
    destruct N. by eapply In.
  - injection B as ->. cbn in N. rewrite Tb in N. apply NoDup_cons in N as [N _].
    destruct N. by eapply In.
  - f_equal. apply IH; try done. cbn in N. destruct (target d x); [| done].
    by apply NoDup_cons in N as [_ N].
Qed.

Lemma opened_extracting (source destination : string) (w : World) (r0 : Restore) :
  opened source destination w = inl r0 ->
  Extracting (zipEntries (zipFile r0)) destination r0.
Proof.
  unfold opened. repeat case_match; try done. intros [= <-].
  constructor; cbn; try done; lia.
Qed.

(** Every turn keeps the promises in step with the entries, and leaves the
    files of the finished entries in place when no two entries are written
    to one path. *)
Lemma fire_extracting (es : list ZipEntry) (d : string) (ev : Event) (r r' : Restore) :
  NoDup (targets d es) ->
  Extracting es d r -> fire ev r = Some r' -> Extracting es d r'.
Proof.
  intros N. destruct r as [w [es' er rr io ce] d' ps o].
  intros [X1 X2 X3 X4 X5 X6] H. cbn in X1, X2, X3, X4, X5, X6. subst es' d'.
  unfold fire in H. loop_simpl.
  assert (H' : match ev with
    | ZipRead =>
        match rr with
        | O => None
        | S pending =>
            if negb io then None else
            match es !! er with
            | Some entry =>
                Some (onEntry entry
                        (MkRestore w (MkZipFile es (S er) pending true ce) d ps o))
            | None => Some (MkRestore w (MkZipFile es er pending false ce) d ps o)
            end
        end
    | DirEnsured i =>
        match ps !! i with
        | Some (EnsuringDir entry dir) =>
            match Fs.ensureDir (fs w) dir with
            | (fs', None) =>
                let r := MkRestore (setFs w fs') (MkZipFile es er rr io ce) d ps o in
                if io then Some (setTask i (OpeningStream entry) r)
                else Some (fail i (MkError "Error" None "closed") r)
            | (fs', Some e) =>
                Some (fail i e (MkRestore (setFs w fs') (MkZipFile es er rr io ce) d ps o))
            end
        | _ => None
        end
    | StreamOpened i =>
        match ps !! i with
        | Some (OpeningStream entry) =>
            match entryData entry with
            | inl err => Some (fail i err (MkRestore w (MkZipFile es er rr io ce) d ps o))
            | inr data =>
                match dest ← Path.join [JsString d; JsString (fileName entry)];
                      fs' ← Fs.openWrite (fs w) dest;
                      mret (dest, fs') with
                | Normal (dest, fs') =>
                    Some (setTask i (Piping entry data dest)
                            (MkRestore (setFs w fs') (MkZipFile es er rr io ce) d ps o))
                | Throw e =>
                    Some (MkRestore w (MkZipFile es er rr io ce) d ps (Uncaught e))
                end
            end
        | _ => None
        end
    | WriteClosed i =>
        match ps !! i with
        | Some (Piping entry data dest) =>
            Some (setTask i Finished
                    (MkRestore (setFs w (<[dest := File data]> (fs w)))
                               (readEntry (MkZipFile es er rr io ce)) d ps o))
        | _ => None
        end
    | ZipClosed =>
        if negb io && negb ce && negb (existsb isPiping ps)
        then Some (MkRestore (logLine (LogDebug "Build copied from cache.") w)
                     (MkZipFile es er rr false true) d ps o)
        else None
    | AllSettled =>
        match o with
        | Pending =>
            if ce then
              match firstFailed ps with
              | Some e => Some (MkRestore w (MkZipFile es er rr io ce) d ps (Rejected e))
              | None => if allFinished ps
                        then Some (MkRestore w (MkZipFile es er rr io ce) d ps Fulfilled)
                        else None
              end
            else None
        | _ => None
        end
    end = Some r') by (by destruct o).
  clear H.
  assert (Ins : forall i old new (fs' : FileSystem),
             ps !! i = Some old ->
             (forall entry, es !! i = Some entry -> tracks d (fs w) entry old ->
                            tracks d fs' entry new) ->
             (forall j entry dst data, j <> i -> es !! j = Some entry ->
                target d entry = Some dst -> fs w !! dst = Some (File data) ->
                fs' !! dst = Some (File data)) ->
             forall j t, <[i := new]> ps !! j = Some t ->
                         exists entry, es !! j = Some entry /\ tracks d fs' entry t).
  { intros i old new fs' L T K j t Lj.
    destruct (decide (j = i)) as [-> | Nji].
    - rewrite list_lookup_insert_eq in Lj by (by eapply lookup_lt_Some).
      injection Lj as <-. destruct (X6 i old L) as (entry & Le & Tr). eauto.
    - rewrite list_lookup_insert_ne in Lj by done.
      destruct (X6 j t Lj) as (entry & Le & Tr). exists entry. split; [done |].
      eapply tracks_mono; [| exact Tr]. intros dst data. by eapply K. }
  destruct ev as [| i | i | i | |].
  - destruct rr as [| pending]; [done |]. destruct io; [| done]. loop_simpl.
    destruct (es !! er) as [entry |] eqn:L; injection H' as <-.
    + pose proof (lookup_lt_Some _ _ _ L) as Lt.
      assert (App : forall t, tracks d (fs w) entry t ->
                forall j t', (ps ++ [t]) !! j = Some t' ->
                             exists entry', es !! j = Some entry' /\ tracks d (fs w) entry' t').
      { intros t T j t' Lj. apply lookup_app_Some in Lj as [Lj | (Ge & Lj)]; [by apply X6 |].
        rewrite X3 in *. destruct (j - er) as [| k] eqn:Ej; [| done].
        injection Lj as <-. assert (j = er) as -> by lia. eauto. }
      unfold onEntry. loop_simpl.
      destruct (Path.endsWithSlash (fileName entry)) eqn:M;
        [| destruct (Path.join _) as [dir | e]].
      all: constructor; loop_simpl; rewrite ?length_app; cbn; try done; try lia.
      all: apply App; cbn; auto.
    + apply lookup_ge_None in L. constructor; loop_simpl; try done; lia.
  - destruct (ps !! i) as [[entry dir | | | |] |] eqn:L; try done.
    destruct (Fs.ensureDir (fs w) dir) as [fs' [e |]] eqn:E.
    + injection H' as <-. unfold fail. loop_simpl.
      constructor; loop_simpl; rewrite ?length_insert; try done.
      eapply Ins; [exact L | done |].
      intros. unfold Fs.ensureDir in E. by eapply mkdirs_keeps.
    + destruct io; injection H' as <-; unfold fail, setTask; loop_simpl.
      all: constructor; loop_simpl; rewrite ?length_insert; try done.
      all: eapply Ins; [exact L | try done |].
      all: intros; unfold Fs.ensureDir in E; by eapply mkdirs_keeps.
  - destruct (ps !! i) as [[| entry | | |] |] eqn:L; try done.
    destruct (X6 i _ L) as (entry' & Le & <- & M).
    destruct (entryData entry) as [err | data] eqn:D.
    + injection H' as <-. unfold fail. loop_simpl.
      constructor; loop_simpl; rewrite ?length_insert; try done.
      by eapply Ins.
    + destruct (Path.join _) as [dst | e] eqn:J; cbn in H'.
      * destruct (Fs.openWrite (fs w) dst) as [fs' | e] eqn:W; cbn in H';
          injection H' as <-; [| by constructor].
        assert (T : target d entry = Some dst) by (unfold target; by rewrite M, J).
        unfold setTask. loop_simpl.
        constructor; loop_simpl; rewrite ?length_insert; try done.
        eapply Ins; [exact L | |].
        -- intros entry2 Le2 _. rewrite Le in Le2. injection Le2 as <-. by cbn.
        -- intros j entry2 dst2 data2 Nj Le2 T2 F2.
           rewrite (openWrite_keeps _ _ _ _ W); [done |].
           intros ->. apply Nj. by eapply targets_distinct.
      * injection H' as <-. by constructor.
  - destruct (ps !! i) as [[| | entry data dst | |] |] eqn:L; try done.
    destruct (X6 i _ L) as (entry' & Le & <- & D & T).
    injection H' as <-. unfold setTask, readEntry. loop_simpl.
    constructor; loop_simpl; rewrite ?length_insert; try done.
    eapply Ins; [exact L | |].
    + intros entry2 Le2 _. rewrite Le in Le2. injection Le2 as <-.
      right. exists data, dst. by rewrite lookup_insert_eq.
    + intros j entry2 dst2 data2 Nj Le2 T2 F2.
      rewrite lookup_insert_ne; [done |].
      intros ->. apply Nj. by eapply targets_distinct.
  - destruct io; [done |]. destruct ce; [done |]. cbn in H'.
    destruct (existsb isPiping ps); [done |]. injection H' as <-.
    by constructor.
  - destruct o; try done. destruct ce; [| done].
    destruct (firstFailed ps); [injection H' as <-; by constructor |].
    destruct (allFinished ps); [| done]. injection H' as <-. by constructor.
Qed.

Lemma replay_preserves (P : Restore -> Prop) :
  (forall ev r r', P r -> fire ev r = Some r' -> P r') ->
  forall evs r r', P r -> replay evs r = Some r' -> P r'.
Proof.
  intros Step evs. induction evs as [| ev evs IH]; intros r r' I H; cbn in H.
  - by injection H as <-.
  - destruct (fire ev r) as [r1 |] eqn:F; [| done].
    eapply IH; [| exact H]. by eapply Step.
Qed.

Lemma run_preserves (P : Restore -> Prop) :
  (forall ev r r', P r -> fire ev r = Some r' -> P r') ->
  forall fuel r, P r -> P (run fuel r).
Proof.
  intros Step fuel r I. destruct (run_replay fuel r) as (evs & R).
  by eapply replay_preserves.
Qed.

Lemma opened_driven (source destination : string) (w : World) (r0 : Restore) :
  opened source destination w = inl r0 -> Driven r0.
Proof.
  unfold opened. repeat case_match; try done. by intros [= <-].
Qed.

Lemma fire_driven (ev : Event) (r r' : Restore) :
  Driven r -> fire ev r = Some r' -> Driven r'.
Proof.
  destruct r as [w [es er rr io ce] d ps o]. unfold Driven, fire. loop_simpl.
  intros D H.
  destruct io; [specialize (D eq_refl) | clear D].
  all: destruct o as [| | e | e]; [| | | done]; destruct ev as [| i | i | i | |]; loop_simpl.
  all: fire_cases H; try discriminate H; injection H as <-.
  all: unfold onEntry, fail, setTask, readEntry; loop_simpl.
  all: repeat match goal with
              | |- context [match ?x with _ => _ end] => destruct x; loop_simpl
              end.
  all: try done.
  all: rewrite ?countb_app; loop_simpl.
  all: try match goal with
           | L : ?ps !! ?i = Some ?old |- context [<[?i := ?t]> ?ps] =>
               pose proof (countb_insert inFlight ps i old t L);
               pose proof (countb_insert isFailed ps i old t L)
           end.
  all: loop_simpl; intros; lia.
Qed.

Lemma countb_zero (p : Task -> bool) (ts : list Task) :
  existsb p ts = false -> countb p ts = 0.
Proof.
  unfold countb. induction ts as [| t ts IH]; [done |]. cbn.
  destruct (p t); [done |]. exact IH.
Qed.

Lemma countb_find (p : Task -> bool) (ts : list Task) :
  0 < countb p ts -> exists i t, ts !! i = Some t /\ p t = true.
Proof.
  unfold countb. induction ts as [| t ts IH]; cbn; [lia |].
  destruct (p t) eqn:E.
  - intros _. by exists 0, t.
  - intros H. destruct (IH H) as (i & t' & L & P). by exists (S i), t'.
Qed.

Lemma firstFailed_None (ts : list Task) :
  existsb isFailed ts = false -> firstFailed ts = None.
Proof.
  induction ts as [| t ts IH]; [done |]. destruct t; cbn; try done.
Qed.

Lemma allFinished_spec (ts : list Task) :
  Forall (fun t => t = Finished) ts -> allFinished ts = true.
Proof.
  unfold allFinished. induction 1 as [| t ts -> _ IH]; [done |]. exact IH.
Qed.

(** When nothing is due and the promise is pending, an entry has failed:
    there is no other way for a restore to stop short. *)
Lemma quiescent_pending_failed (r : Restore) :
  Invariant r -> Driven r -> (forall ev, fire ev r = None) -> outcome r = Pending ->
  existsb isFailed (promises r) = true.
Proof.
  destruct r as [w [es er rr io ce] d ps o]. intros [I1 I2 I3 I4 I5] D Q O.
  unfold Driven in D. loop_simpl. subst o.
  destruct (existsb isFailed ps) eqn:X; [done | exfalso].
  pose proof (countb_zero _ _ X) as C0.
  destruct io.
  - specialize (D eq_refl). destruct rr as [| n].
    + destruct (countb_find inFlight ps) as (i & t & L & P); [lia |].
      destruct t as [entry dir | entry | entry data dst | |]; try done.
      * specialize (Q (DirEnsured i)). unfold fire in Q. loop_simpl. rewrite L in Q.
        by destruct (Fs.ensureDir (fs w) dir) as [? [|]].
      * specialize (Q (StreamOpened i)). unfold fire in Q. loop_simpl. rewrite L in Q.
        destruct (entryData entry); [done |].
        by destruct (_ ≫= _) as [[] |] in Q.
      * specialize (Q (WriteClosed i)). unfold fire in Q. loop_simpl. by rewrite L in Q.
    + specialize (Q ZipRead). unfold fire in Q. loop_simpl. by destruct (es !! er).
  - destruct (I3 eq_refl) as [C _]. destruct ce.
    + specialize (Q AllSettled). unfold fire in Q. loop_simpl.
      rewrite (firstFailed_None _ X), (allFinished_spec ps) in Q; [done |].
      by apply tasks_finished.
    + specialize (Q ZipClosed). unfold fire in Q. loop_simpl.
      destruct (existsb isPiping ps) eqn:P; [| done].
      apply existsb_exists in P as (t & In & P).
      apply list_elem_of_In, list_elem_of_lookup in In as (i & L).
      destruct t; try done. pose proof (countb_pos inFlight ps i _ L eq_refl). lia.
Qed.

Lemma finished_not_failed (ts : list Task) :
  Forall (fun t => t = Finished) ts -> existsb isFailed ts = false.
Proof. induction 1 as [| t ts -> _ IH]; [done |]. exact IH. Qed.

Lemma finished_lookup (ts : list Task) (i : nat) (t : Task) :
  Forall (fun t => t = Finished) ts -> ts !! i = Some t -> t = Finished.
Proof. intros F L. by eapply (proj1 (Forall_lookup _ _) F). Qed.

(** A restore of directory markers writes nothing and cannot fail. *)
Lemma fire_skipping (w : World) (ev : Event) (r r' : Restore) :
  Forall (fun entry => Path.endsWithSlash (fileName entry) = true) (zipEntries (zipFile r))
  /\ Skipping w r ->
  fire ev r = Some r' ->
  Forall (fun entry => Path.endsWithSlash (fileName entry) = true) (zipEntries (zipFile r'))
  /\ Skipping w r'.
Proof.
  destruct r as [w' [es er rr io ce] d ps o]. intros [M [S1 S2 S3 S4]] H.
  unfold fire in H. loop_simpl.
  pose proof (finished_not_failed _ S3) as NF.
  pose proof (firstFailed_None _ NF) as FF.
  destruct S4 as [-> | ->]; destruct ev as [| i | i | i | |]; loop_simpl.
  all: fire_cases H; try discriminate H; try injection H as <-.
  all: try match goal with
           | L : ?l !! _ = Some ?t, S : Forall _ ?l |- _ =>
               by pose proof (finished_lookup _ _ _ S L)
           end.
  all: try match goal with
           | L : ?l !! _ = Some ?entry, M : Forall _ ?l |- _ =>
               pose proof (proj1 (Forall_lookup _ _) M _ _ L) as Me; cbn in Me;
               unfold onEntry; rewrite Me
           end.
  all: loop_simpl; (split; [done |]); constructor; loop_simpl; auto.
  all: try (apply Forall_app; split; [done | by constructor]).
  all: destruct io, ce; try done; loop_simpl; rewrite ?app_nil_r in *; congruence.
Qed.

Lemma run_more (fuel more : nat) (r : Restore) :
  next (run fuel r) = None -> run (fuel + more) r = run fuel r.
Proof.
  revert r. induction fuel as [| fuel IH]; intros r H; cbn in *.
  - destruct more; [done |]. cbn. by rewrite H.
  - by destruct (next r) as [r' |] eqn:N; [apply IH |].
Qed.

(** X1. The event loop of [_processZip] comes to rest within four turns for
    each entry of the archive and four more: after them no event is due, and
    further turns change nothing. *)
Theorem processZip_loop_stops (source destination : string) (w : World) (r0 : Restore) :
  opened source destination w = inl r0 ->
  let n := turns (zipEntries (zipFile r0)) in
  (forall ev, fire ev (run n r0) = None)
  /\ forall more, run (n + more) r0 = run n r0.
Proof.
  intros O n.
  assert (Q : next (run n r0) = None).
  { apply run_quiescent. by rewrite (opened_turnsLeft _ _ _ _ O). }
  split; [by apply next_None |]. intros more. by apply run_more.
Qed.

Lemma processZip_loop_stops_witness :
  exists r0, opened "/cache/k.zip" "/work/build" markerWorld = inl r0
             /\ (forall ev, fire ev (run 12 r0) = None)
             /\ forall more, run (12 + more) r0 = run 12 r0.
Proof.
  destruct (opened "/cache/k.zip" "/work/build" markerWorld) as [r0 | e] eqn:O;
    [| vm_compute in O; discriminate].
  exists r0. split; [reflexivity |].
  pose proof (processZip_loop_stops _ _ _ r0 O) as S.
  vm_compute in O. injection O as <-. exact S.
Defined.

(** X2. [_processZip] rejects only when [yauzl.open] fails: the source is
    not an archive that can be read, and nothing is written or logged. *)
Theorem processZip_rejects_unopened (source destination : string) (w : World)
    (e : JsError) :
  fst (_processZip source destination w) = Rejected e ->
  opened source destination w = inr e
  /\ (forall entries, fs w !! source <> Some (File (Zip entries)))
  /\ snd (_processZip source destination w) = w.
Proof.
  intros R. destruct (opened source destination w) as [r0 | e'] eqn:O.
  - by destruct (processZip_never_rejects _ _ _ _ O e).
  - unfold _processZip in *. rewrite O in *. cbn in R. injection R as ->.
    split; [done |]. split; [| done].
    intros entries L. unfold opened in O. by rewrite L in O.
Qed.

Lemma processZip_rejects_unopened_witness :
  opened "/cache/none.zip" "/work/build" markerWorld
  = inr (fsError "ENOENT" "/cache/none.zip")
  /\ (forall entries, fs markerWorld !! "/cache/none.zip" <> Some (File (Zip entries)))
  /\ snd (_processZip "/cache/none.zip" "/work/build" markerWorld) = markerWorld.
Proof.
  apply (processZip_rejects_unopened "/cache/none.zip" "/work/build" markerWorld).
  vm_compute. reflexivity.
Defined.

(** X3. For an archive that is open and whose names [yauzl] accepts: the
    promise of [_processZip] ends pending exactly when the promise of an
    entry has been rejected, and when none has been, it is fulfilled, unless
    opening a write stream has thrown. *)
Theorem processZip_outcome (source destination : string) (w : World) (r0 : Restore) :
  opened source destination w = inl r0 ->
  Forall (fun entry => accepted (fileName entry) = true) (zipEntries (zipFile r0)) ->
  let r := run (turns (zipEntries (zipFile r0))) r0 in
  (fst (_processZip source destination w) = Pending
   <-> existsb isFailed (promises r) = true)
  /\ (existsb isFailed (promises r) = false ->
      fst (_processZip source destination w) = Fulfilled
      \/ exists e, fst (_processZip source destination w) = Uncaught e).
Proof.
  intros O _ r. destruct (processZip_quiescent _ _ _ _ O) as (E & Q & I).
  fold r in E, Q, I. rewrite E. cbn [fst].
  assert (D : Driven r).
  { apply (run_preserves Driven fire_driven). by eapply opened_driven. }
  assert (P : outcome r = Pending -> existsb isFailed (promises r) = true)
    by (by apply quiescent_pending_failed).
  split; [split; [exact P |] |].
  - intros X. by destruct (inv_failed r I X) as (_ & _ & _ & ?).
  - intros X. destruct (outcome r) as [| | e | e] eqn:Eo.
    + rewrite P in X; done.
    + by left.
    + destruct (processZip_never_rejects _ _ _ _ O e). by rewrite E.
    + right. by exists e.
Qed.

Lemma processZip_outcome_witness :
  exists r0, opened "/cache/k.zip" "/work/build" brokenWorld = inl r0
    /\ (fst (_processZip "/cache/k.zip" "/work/build" brokenWorld) = Pending
        <-> existsb isFailed (promises (run (turns (zipEntries (zipFile r0))) r0)) = true).
Proof.
  destruct (opened "/cache/k.zip" "/work/build" brokenWorld) as [r0 | e] eqn:O;
    [| vm_compute in O; discriminate].
  exists r0. split; [reflexivity |].
  refine (proj1 (processZip_outcome _ _ _ r0 O _)).
  vm_compute in O. injection O as <-. by repeat constructor.
Defined.

(** What a fulfilled restore has written. *)
Lemma restore_writes (source destination : string) (w : World)
    (entries : list ZipEntry) :
  fs w !! source = Some (File (Zip entries)) ->
  Forall (fun entry => accepted (fileName entry) = true) entries ->
  NoDup (targets destination entries) ->
  fst (_processZip source destination w) = Fulfilled ->
  forall name data, (name, data) ∈ entries -> Path.endsWithSlash name = false ->
    exists content dst,
      data = inr content
      /\ Path.join [JsString destination; JsString name] = Normal dst
      /\ fs (snd (_processZip source destination w)) !! dst = Some (File content).
Proof.
  intros L _ N F name data In M.
  destruct (opened source destination w) as [r0 | e] eqn:O;
    [| unfold opened in O; by rewrite L in O].
  assert (Es : zipEntries (zipFile r0) = entries).
  { unfold opened in O. rewrite L in O. by injection O as <-. }
  destruct (processZip_quiescent _ _ _ _ O) as (E & Q & I).
  rewrite E in *. cbn [fst snd] in *. rewrite Es in *.
  set (r := run (turns entries) r0) in *.
  assert (X : Extracting entries destination r).
  { apply (run_preserves (Extracting entries destination)).
    - intros ev r1 r2. by apply fire_extracting.
    - rewrite <- Es. by eapply opened_extracting. }
  destruct X as [X1 X2 X3 X4 X5 X6].
  pose proof (inv_settled r I (or_introl F)) as Ce.
  pose proof (inv_emitted r I Ce) as Op.
  destruct (inv_closed r I Op) as [C0 _].
  assert (NF : existsb isFailed (promises r) = false).
  { destruct (existsb isFailed (promises r)) eqn:Xf; [| done].
    destruct (inv_failed r I Xf) as (_ & _ & ? & _). congruence. }
  pose proof (tasks_finished _ C0 NF) as Fin.
  apply list_elem_of_lookup in In as (i & Li).
  destruct (promises r !! i) as [t |] eqn:Lt.
  - pose proof (finished_lookup _ _ _ Fin Lt) as ->.
    destruct (X6 i Finished Lt) as (entry & Le & T).
    rewrite Li in Le. injection Le as <-. cbn in T.
    destruct T as [T | (content & dst & D & T & Lf)]; [congruence |].
    exists content, dst. split; [exact D |]. split; [| exact Lf].
    unfold target in T. cbn [fileName fst] in T. rewrite M in T.
    destruct (Path.join [JsString destination; JsString name]) as [p | e'];
      [| done]. by injection T as ->.
  - apply lookup_ge_None in Lt. apply lookup_lt_Some in Li.
    specialize (X5 Op). lia.
Qed.

(** X4. A fulfilled restore has handed out every entry of the archive and
    written every entry that is a file: each one could be read, and its data
    is at its name below the destination. The names are those [yauzl]
    accepts, and no two entries are written to one path. *)
Theorem processZip_fulfilled_writes (source destination : string) (w : World)
    (entries : list ZipEntry) :
  fs w !! source = Some (File (Zip entries)) ->
  Forall (fun entry => accepted (fileName entry) = true) entries ->
  NoDup (targets destination entries) ->
  fst (_processZip source destination w) = Fulfilled ->
  forall name data, (name, data) ∈ entries -> Path.endsWithSlash name = false ->
    exists content dst,
      data = inr content
      /\ Path.join [JsString destination; JsString name] = Normal dst
      /\ fs (snd (_processZip source destination w)) !! dst = Some (File content).
Proof. apply restore_writes. Qed.

Lemma processZip_fulfilled_writes_witness :
  exists content dst,
    @inr JsError FileData (Bytes "B") = inr content
    /\ Path.join [JsString "/work/build"; JsString "sub/b.txt"] = Normal dst
    /\ fs (snd (_processZip "/cache/k.zip" "/work/build" markerWorld)) !! dst
       = Some (File content).
Proof.
  apply (processZip_fulfilled_writes "/cache/k.zip" "/work/build" markerWorld
           [("sub/", inr (Bytes "")); ("sub/b.txt", inr (Bytes "B"))]).
  - vm_compute. reflexivity.
  - by repeat constructor.
  - vm_compute. apply NoDup_singleton.
  - vm_compute. reflexivity.
  - apply list_elem_of_further, list_elem_of_here.
  - vm_compute. reflexivity.
Defined.

(** X5. An archive that holds nothing but directory markers, the empty
    archive among them, is restored without a trace on the file system: the
    promise is fulfilled, the one effect is the line of the 'close'
    listener, and not even the destination is created. *)
Theorem processZip_markers_only (source destination : string) (w : World)
    (entries : list ZipEntry) :
  fs w !! source = Some (File (Zip entries)) ->
  Forall (fun entry => accepted (fileName entry) = true) entries ->
  Forall (fun entry => Path.endsWithSlash (fileName entry) = true) entries ->
  _processZip source destination w
  = (Fulfilled, logLine (LogDebug "Build copied from cache.") w).
Proof.
  intros L _ M.
  destruct (opened source destination w) as [r0 | e] eqn:O;
    [| unfold opened in O; by rewrite L in O].
  assert (E0 : r0 = MkRestore w (readEntry (MkZipFile entries 0 0 true false))
                              destination [] Pending).
  { unfold opened in O. rewrite L in O. congruence. }
  destruct (processZip_quiescent _ _ _ _ O) as (E & Q & I).
  assert (D : Driven (run (turns (zipEntries (zipFile r0))) r0)).
  { apply (run_preserves Driven fire_driven). by eapply opened_driven. }
  assert (S : Forall (fun entry => Path.endsWithSlash (fileName entry) = true)
                (zipEntries (zipFile (run (turns (zipEntries (zipFile r0))) r0)))
              /\ Skipping w (run (turns (zipEntries (zipFile r0))) r0)).
  { apply (run_preserves _ (fire_skipping w)). subst r0. cbn. split; [done |].
    constructor; cbn; rewrite ?app_nil_r; auto. }
  rewrite E. destruct S as [_ [S1 S2 S3 S4]].
  set (r := run (turns (zipEntries (zipFile r0))) r0) in *.
  assert (F : outcome r = Fulfilled).
  { destruct S4 as [P | F]; [| done].
    pose proof (quiescent_pending_failed r I D Q P) as X.
    by rewrite (finished_not_failed _ S3) in X. }
  rewrite F. f_equal.
  rewrite (inv_settled r I (or_introl F)) in S2.
  destruct (world r) as [fs' lg]. cbn in S1, S2. subst. by unfold logLine.
Qed.

Lemma processZip_markers_only_witness :
  _processZip "/cache/k.zip" "/work/build"
    (MkWorld (<["/cache/k.zip" := File (Zip [("sub/", inr (Bytes ""))])]> ∅) [])
  = (Fulfilled,
     logLine (LogDebug "Build copied from cache.")
       (MkWorld (<["/cache/k.zip" := File (Zip [("sub/", inr (Bytes ""))])]> ∅) [])).
Proof.
  apply (processZip_markers_only _ _ _ [("sub/", inr (Bytes ""))]).
  - vm_compute. reflexivity.
  - by repeat constructor.
  - by repeat constructor.
Defined.

(** X6. A store that caches and whose cache [hasCache] does not find cannot
    be restored: [restore] logs that it opens the archive and is rejected
    with the ENOENT of the file of the cache, and nothing is written. *)
Theorem restore_without_cache (process : Process) (options : Options) (w0 w1 w : World)
    (this : CacheBuild) (build : string) :
  constructor process options w0 = (Normal this, w1) ->
  ToBoolean (get options "noCache") = false ->
  hasCache this w = (Normal false, w) ->
  exists err,
    restore this build w = (Rejected err, logLine (LogDebug "Opening cached zip file.") w)
    /\ errCode err = Some "ENOENT".
Proof.
  intros C N H.
  destruct (constructor_enabled _ _ _ _ _ N C) as (root & -> & NF).
  pose proof (cacheFile_enabled options root NF) as Cf.
  exists (fsError "ENOENT" (root +:+ "/" +:+ createHash options +:+ ".zip")).
  split; [| done].
  revert H. unfold hasCache, restore. cbn [opts]. rewrite N, Cf.
  unfold mbind, M_bind, lift, readFs, mret, M_ret.
  unfold Fs.pathExists, _processZip, opened. cbn [fs logLine].
  destruct (fs w !! _) as [node |]; [done |]. done.
Qed.

Lemma restore_without_cache_witness :
  let this := MkCacheBuild exampleOptions (JsString (createHash exampleOptions))
                (JsString "/home/user/.config/api-console/cache/builds") in
  exists err,
    fst (restore this "/work/build" (MkWorld ∅ [])) = Rejected err
    /\ errCode err = Some "ENOENT".
Proof.
  intros this.
  destruct (restore_without_cache linuxProcess exampleOptions (MkWorld ∅ [])
              (snd (constructor linuxProcess exampleOptions (MkWorld ∅ [])))
              (MkWorld ∅ []) this "/work/build")
    as (err & R & Ec).
  - vm_compute. reflexivity.
  - reflexivity.
  - vm_compute. reflexivity.
  - exists err. split; [exact (f_equal fst R) | exact Ec].
Defined.

(** ** Packing: what a pack stores and what it leaves *)




Lemma openWrite_creates (fs fs' : FileSystem) (dst : string) :
  Fs.openWrite fs dst = Normal fs' ->
  fs' = <[dst := File (Bytes "")]> fs /\ fs !! dst <> Some Directory.
Proof.
  unfold Fs.openWrite. intros H. repeat case_match; try done.
  all: by injection H as <-.
Qed.








(** X9. When the place of the file of the cache is taken by a directory the
    output cannot be opened, and yet the pack is fulfilled: 'Cache build
    saved.' is logged, no archive is written and the file system is as it
    was; [hasCache] answers true, for the directory, and [restore] is
    rejected with EISDIR. *)
Theorem pack_over_directory (this : CacheBuild) (sources dest : string)
    (prim : Primitive) (w : World) (files : list (string * Fs.Kind)) :
  ToBoolean (get (opts this) "noCache") = false ->
  cacheFile this = Normal dest ->
  Fs.readdirSync (fs w) sources = Normal files ->
  fs w !! dest = Some Directory ->
  exists w',
    _createPackage this sources prim w = (Fulfilled, w')
    /\ fs w' = fs w
    /\ LogDebug "Cache build saved." ∈ logged w'
    /\ hasCache this w' = (Normal true, w')
    /\ forall build, exists err,
         fst (restore this build w') = Rejected err /\ errCode err = Some "EISDIR".
Proof.
  intros N C R L.
  destruct (createPackage_started this sources dest prim w files C R)
    as (queue & w1 & _ & Ef & E).
  assert (O : exists e, Fs.openWrite (fs w) dest = Throw e).
  { unfold Fs.openWrite. rewrite L. destruct (negb _); eauto. }
  destruct O as (e & O). rewrite O in E.
  exists (snd (_createPackage this sources prim w)).
  assert (Eo : fst (_createPackage this sources prim w) = Fulfilled).
  { rewrite E. cbn [fold_left deliver]. unfold onClose. cbn [fst resolve].
    by apply deliver_settled. }
  assert (Efs : fs (snd (_createPackage this sources prim w)) = fs w).
  { rewrite E, deliver_fs. by rewrite <- Ef. }
  split; [| split; [exact Efs | split; [| split]]].
  - destruct (_createPackage this sources prim w) as [o w']. cbn in Eo. by subst o.
  - rewrite E. cbn [fold_left deliver]. apply deliver_logged.
    unfold onClose. by in_log.
  - unfold hasCache. rewrite N.
    unfold mbind, M_bind, lift, readFs, mret, M_ret. rewrite C.
    unfold Fs.pathExists. by rewrite Efs, L.
  - intros build. exists (fsError "EISDIR" dest). split; [| done].
    unfold restore. rewrite C. unfold _processZip, opened.
    cbn [fs logLine]. by rewrite Efs, L.
Qed.

Lemma pack_over_directory_witness :
  let w := MkWorld (<["/cache/k.zip" := Directory]> (fs packWorld)) [] in
  exists w',
    _createPackage packStore "/work/dist" (quiet 22 false) w = (Fulfilled, w')
    /\ hasCache packStore w' = (Normal true, w')
    /\ exists err, fst (restore packStore "/work/build" w') = Rejected err
                   /\ errCode err = Some "EISDIR".
Proof.
  intros w.
  destruct (pack_over_directory packStore "/work/dist" "/cache/k.zip" (quiet 22 false) w
              [("a.txt", Fs.IsFile); ("b.txt", Fs.IsFile)])
    as (w' & H1 & _ & _ & H2 & H3).
  - vm_compute. reflexivity.
  - vm_compute. reflexivity.
  - vm_compute. reflexivity.
  - vm_compute. reflexivity.
  - exists w'. split; [exact H1 |]. split; [exact H2 | exact (H3 "/work/build")].
Defined.

(** X10. A pack whose sources cannot be read is rejected with the error of
    [readdirSync], which is logged; but the output stream has been made
    before the sources are read, and its file is there, empty, in place of
    any archive there was: [hasCache] answers true for it, and [restore] is
    rejected, for it is no archive. *)
Theorem unreadable_sources_clear_cache (this : CacheBuild) (sources dest : string)
    (prim : Primitive) (w : World) (e : JsError) (fs1 : FileSystem) :
  ToBoolean (get (opts this) "noCache") = false ->
  cacheFile this = Normal dest ->
  Fs.readdirSync (fs w) sources = Throw e ->
  Fs.openWrite (fs w) dest = Normal fs1 ->
  exists w',
    _createPackage this sources prim w = (Rejected e, w')
    /\ logged w' = logged w ++ [LogError e]
    /\ fs w' !! dest = Some (File (Bytes ""))
    /\ (forall p, p <> dest -> fs w' !! p = fs w !! p)
    /\ hasCache this w' = (Normal true, w')
    /\ forall build, exists err, fst (restore this build w') = Rejected err.
Proof.
  intros N C R O.
  destruct (openWrite_creates _ _ _ O) as [-> _].
  exists (setFs (logLine (LogError e) w) (<[dest := File (Bytes "")]> (fs w))).
  assert (L : <[dest := File (Bytes "")]> (fs w) !! dest = Some (File (Bytes "")))
    by (by rewrite lookup_insert_eq).
  split; [| split; [done | split; [exact L | split; [| split]]]].
  - unfold _createPackage. rewrite C, R. cbn [fs logLine]. by rewrite O.
  - intros p Np. cbn [fs setFs]. by rewrite lookup_insert_ne.
  - unfold hasCache. rewrite N.
    unfold mbind, M_bind, lift, readFs, mret, M_ret. rewrite C.
    unfold Fs.pathExists. cbn [fs setFs]. by rewrite L.
  - intros build. unfold restore. rewrite C. unfold _processZip, opened.
    cbn [fs logLine setFs]. rewrite L. eauto.
Qed.

Lemma unreadable_sources_clear_cache_witness :
  exists e w',
    _createPackage packStore "/work/none" (quiet 22 false) packWorld = (Rejected e, w')
    /\ fs w' !! "/cache/k.zip" = Some (File (Bytes ""))
    /\ hasCache packStore w' = (Normal true, w').
Proof.
  exists (fsError "ENOENT" "/work/none").
  destruct (unreadable_sources_clear_cache packStore "/work/none" "/cache/k.zip"
              (quiet 22 false) packWorld (fsError "ENOENT" "/work/none")
              (<["/cache/k.zip" := File (Bytes "")]> (fs packWorld)))
    as (w' & H1 & _ & H2 & _ & H3 & _).
  - vm_compute. reflexivity.
  - vm_compute. reflexivity.
  - vm_compute. reflexivity.
  - vm_compute. reflexivity.
  - exists w'. split; [exact H1 |]. split; [exact H2 | exact H3].
Defined.

(** ** The key of attributes that cannot be serialized *)

Lemma hashParts_unserializable (c : Options) (v : JsValue) (e : JsError) :
  JSON_stringify v = Throw e ->
  hashParts (<["attributes" := v]> c) = hashParts (delete "attributes" c).
Proof.
  intros H. unfold hashParts. get_simpl. rewrite H. cbn [ToBoolean].
  by destruct (ToBoolean v).
Qed.

(** X11. Attributes on which [JSON.stringify] throws contribute nothing to
    the key, for the [catch] of [createHash] is empty: the key is that of the
    configuration without attributes, and any two such values of the
    attributes share it. *)
Theorem unserializable_attributes_unkeyed (c : Options) (v1 v2 : JsValue)
    (e1 e2 : JsError) :
  JSON_stringify v1 = Throw e1 -> JSON_stringify v2 = Throw e2 ->
  createHash (<["attributes" := v1]> c) = createHash (delete "attributes" c)
  /\ createHash (<["attributes" := v1]> c) = createHash (<["attributes" := v2]> c).
Proof.
  intros H1 H2. unfold createHash, hashMaterial.
  by rewrite (hashParts_unserializable c v1 e1 H1), (hashParts_unserializable c v2 e2 H2).
Qed.

Lemma unserializable_attributes_unkeyed_witness :
  createHash (<["attributes" := JsArray [JsBigInt 1]]> exampleOptions)
  = createHash (<["attributes" := JsObject [("n", JsBigInt 2)]]> exampleOptions).
Proof.
  exact (proj2 (unserializable_attributes_unkeyed exampleOptions
                  (JsArray [JsBigInt 1]) (JsObject [("n", JsBigInt 2)])
                  _ _ eq_refl eq_refl)).
Defined.

(** ** The bundler *)

Lemma fsRemove_lookup (fs : FileSystem) (d p : string) :
  Bundling.fsRemove fs d !! p
  = if decide (p = d) then None
    else match Fs.below d p with
         | Some _ => None
         | None => fs !! p
         end.
Proof.
  unfold Bundling.fsRemove.
  destruct (decide (p = d)) as [-> | N].
  - apply map_lookup_filter_None. right. intros n _ [H _]. by apply H.
  - destruct (Fs.below d p) as [rel |] eqn:B.
    + apply map_lookup_filter_None. right. intros n _ [_ H]. cbn in H. congruence.
    + destruct (fs !! p) as [n |] eqn:L.
      * apply map_lookup_filter_Some. by repeat split.
      * apply map_lookup_filter_None. by left.
Qed.

(** X12. [cleanOutput] removes the output of the last build and nothing
    else: after it there is nothing at [dest] nor below it (paths as a POSIX
    host spells them), every other path leads to what it led to, and the one
    line logged is that of the cleaning. With a working directory that is no string it is rejected by
    the getter of [dest] before anything is logged or removed. *)
Theorem cleanOutput_removes (this : Bundling.Bundler) (s : Bundling.Site) :
  match Bundling.workingDir this with
  | JsString dir =>
      exists d s',
        Bundling.dest this = Normal d
        /\ Bundling.cleanOutput this s = (Normal tt, s')
        /\ Bundling.lines s'
           = Bundling.lines s ++ [(Bundling.debug, "Cleaning build output directory...")]
        /\ Bundling.files s' !! d = None
        /\ (forall p rel, Fs.below d p = Some rel -> Bundling.files s' !! p = None)
        /\ (forall p, p <> d -> Fs.below d p = None ->
                      Bundling.files s' !! p = Bundling.files s !! p)
  | _ =>
      exists e, Bundling.cleanOutput this s = (Throw e, s)
                /\ errName e = "TypeError" /\ errCode e = Some "ERR_INVALID_ARG_TYPE"
  end.
Proof.
  destruct this as [v]. cbn [Bundling.workingDir].
  destruct v as [| | b | n | dir | items | props];
    try (eexists; split; [reflexivity | by split]).
  destruct (join_strings [dir; "dist"]) as (d & J). cbn [List.map] in J.
  exists d, (Bundling.MkSite (Bundling.fsRemove (Bundling.files s) d)
               (Bundling.lines s
                ++ [(Bundling.debug, "Cleaning build output directory...")])).
  split; [exact J |]. split.
  { unfold Bundling.cleanOutput, Bundling.dest. cbn [Bundling.workingDir].
    unfold mbind, Bundling.B_bind, Bundling.liftB. by rewrite J. }
  split; [done |]. cbn [Bundling.files].
  split; [| split].
  - rewrite fsRemove_lookup. by destruct (decide (d = d)).
  - intros p rel B. rewrite fsRemove_lookup, B. by destruct (decide (p = d)).
  - intros p N B. rewrite fsRemove_lookup, B. by destruct (decide (p = d)).
Qed.

(** X13. On a POSIX host [bundle] runs rollup once, in the working
    directory, on the file system from which the old output has been
    removed. What the command writes to stdout is logged with debug and what
    it writes to stderr with error, when there is any, and neither fails the
    bundle; when the command fails, the bundle is rejected with its error
    and 'Bundler finished.' is not logged. *)
Theorem bundle_runs_rollup (shell : Bundling.Shell) (process : Process)
    (this : Bundling.Bundler) (dir : string) (s : Bundling.Site) :
  posixHost process ->
  Bundling.workingDir this = JsString dir ->
  exists d,
    Bundling.dest this = Normal d
    /\ let ran := shell "node_modules/.bin/rollup -c rollup.config.js"
                    (Bundling.MkExecOptions (JsString dir) 5120000)
                    (Bundling.fsRemove (Bundling.files s) d) in
       let started := Bundling.lines s
                      ++ [(Bundling.debug, "Cleaning build output directory...");
                          (Bundling.info, "Bundling API Console...")] in
       Bundling.bundle shell process this s
       = match fst ran with
         | Throw e => (Throw e, Bundling.MkSite (snd ran) started)
         | Normal (stdout, stderr) =>
             (Normal tt,
              Bundling.MkSite (snd ran)
                (started
                 ++ (if String.eqb stdout "" then [] else [(Bundling.debug, stdout)])
                 ++ (if String.eqb stderr "" then [] else [(Bundling.error, stderr)])
                 ++ [(Bundling.info, "Bundler finished.")]))
         end.
Proof.
  intros P W. destruct this as [v]. cbn [Bundling.workingDir] in W. subst v.
  destruct (join_strings [dir; "dist"]) as (d & J). cbn [List.map] in J.
  exists d. split; [exact J |]. intros ran started.
  unfold Bundling.bundle, Bundling.cleanOutput, Bundling.runBundler, Bundling._runCmd,
    Bundling.dest.
  cbn [Bundling.workingDir].
  unfold mbind, Bundling.B_bind, Bundling.liftB, Bundling.say, Bundling.remove.
  rewrite J. cbn [Bundling.files Bundling.lines].
  change (Path.join [JsString "node_modules"; JsString ".bin"; JsString "rollup"])
    with (@Normal string "node_modules/.bin/rollup").
  cbv iota beta.
  rewrite (proj2 (String.eqb_neq _ _) P).
  change ("node_modules/.bin/rollup" +:+ " -c rollup.config.js")
    with "node_modules/.bin/rollup -c rollup.config.js".
  change (1024 * 5000)%N with 5120000%N.
  fold ran. rewrite <- app_assoc. cbn [app]. fold started.
  destruct ran as [[[stdout stderr] | e] fs']; cbn [fst snd]; [| done].
  destruct (String.eqb stdout ""), (String.eqb stderr ""); cbn [negb];
    cbn [Bundling.files Bundling.lines app]; by rewrite <- ?app_assoc.
Qed.

Lemma bundle_runs_rollup_witness :
  let shell : Bundling.Shell :=
    fun command options fs =>
      (Normal ("created dist", ""), <["/work/dist/index.html" := File (Bytes "new")]> fs) in
  let s := Bundling.MkSite (<["/work/dist/old.js" := File (Bytes "old")]>
                              (<["/work/dist" := Directory]> ∅)) [] in
  posixHost linuxProcess
  /\ fst (Bundling.bundle shell linuxProcess (Bundling.MkBundler (JsString "/work")) s)
     = Normal tt
  /\ Bundling.files (snd (Bundling.bundle shell linuxProcess
                            (Bundling.MkBundler (JsString "/work")) s))
     !! "/work/dist/old.js" = None.
Proof.
  intros shell s.
  assert (P : posixHost linuxProcess) by (unfold posixHost; simpl; discriminate).
  split; [exact P |].
  destruct (bundle_runs_rollup shell linuxProcess (Bundling.MkBundler (JsString "/work"))
              "/work" s P eq_refl) as (d & J & E).
  rewrite E. split; [reflexivity |]. vm_compute in J. injection J as <-.
  vm_compute. reflexivity.
Defined.

(** ** The constructor *)

(** X14. On a POSIX host the constructor of a store that caches logs the
    key, then decides on the folder of the cache and logs it, and keeps both;
    when the folder needs HOME and HOME is not set, it throws the TypeError
    of [path.join] after it has logged the key, and no store is made. *)
Theorem constructor_outcome (process : Process) (options : Options) (w : World) :
  posixHost process ->
  ToBoolean (get options "noCache") = false ->
  let keyed := logLine (LogDebug ("Build cache hash is " +:+ createHash options)) w in
  match specBase process (platform process) with
  | Some base =>
      exists root,
        constructor process options w
        = (Normal (MkCacheBuild options (JsString (createHash options)) (JsString root)),
           logLine (LogDebug ("Setting builds cache path to " +:+ root)) keyed)
        /\ normalForm root
  | None =>
      exists e, constructor process options w = (Throw e, keyed)
                /\ errName e = "TypeError"
  end.
Proof.
  intros _ N keyed. subst keyed. unfold constructor. rewrite N. cbn [negb].
  pose proof (locateAppDir_shape process None
                (logLine (LogDebug ("Build cache hash is " +:+ createHash options)) w))
    as S.
  change (effectivePlatform process None) with (platform process) in S.
  destruct (specBase process (platform process)) as [base |].
  - destruct S as (root & pre & E & _ & NF & _). exists root.
    unfold mbind, M_bind, log. by rewrite E.
  - destruct S as (e & E & Ee). exists e.
    unfold mbind, M_bind, log. by rewrite E.
Qed.

Lemma constructor_outcome_witness :
  exists e,
    constructor (MkProcess "linux" ∅) exampleOptions (MkWorld ∅ [])
    = (Throw e,
       logLine (LogDebug ("Build cache hash is " +:+ createHash exampleOptions))
         (MkWorld ∅ []))
    /\ errName e = "TypeError".
Proof.
  assert (P : posixHost (MkProcess "linux" ∅)) by (unfold posixHost; simpl; discriminate).
  exact (constructor_outcome (MkProcess "linux" ∅) exampleOptions (MkWorld ∅ []) P eq_refl).
Defined.
